(** * httpretry: a retrying [http.RoundTripper]

    Shallow embedding of the Go package [github.com/dings-things/httpretry]
    ([client.go], [settings.go] and the options file) together with the
    properties of its retry loop, its retry decision, its status registry
    and its constructor.

    Conventions of the embedding
    - Go [int] and [time.Duration] are 64-bit signed integers: values of [Z]
      with the wrap-around written out ([wrap64]).
    - A nil-able Go value (an [error], a [*http.Response], a [*Settings], a
      function value) is an [option].
    - A run-time panic is the result [None] (or [Panicked] for the loop).
    - Go maps and pointers are references into a [Store]; package-level
      variables are fixed locations of that store.
    - The outside world of one call (the request context, the underlying
      transport raced against the timer, the clock) is an abstract state
      [W] driven by three oracles; what the loop does is recorded in a
      trace of events. *)

From Stdlib Require Import ZArith String Ascii List Lia.
From Stdlib Require Import DecimalString Sorted.
From stdpp Require Import base option list strings gmap fin_maps.

Import ListNotations.
Open Scope string_scope.
Open Scope list_scope.
Open Scope Z_scope.

(** ** Machine integers *)

Definition MaxInt64 : Z := 2 ^ 63 - 1.
Definition MinInt64 : Z := - 2 ^ 63.

(** Two's-complement reduction of a mathematical integer to [int64]. *)
Definition wrap64 (z : Z) : Z := (z + 2 ^ 63) mod 2 ^ 64 - 2 ^ 63.

Definition is_int64 (z : Z) : Prop := MinInt64 <= z <= MaxInt64.

Definition int_add (a b : Z) : Z := wrap64 (a + b).
Definition int_mul (a b : Z) : Z := wrap64 (a * b).

(** [x << n] on [int64]: a negative count panics, a count of 64 or more
    gives 0, otherwise the low 64 bits of the shifted value. *)
Definition int_shl (x n : Z) : option Z :=
  if n <? 0 then None
  else if 64 <=? n then Some 0
  else Some (wrap64 (Z.shiftl x n)).

(** ** [time] *)

Definition Duration : Type := Z.

Definition Nanosecond : Duration := 1.
Definition Millisecond : Duration := 1000000.
Definition Second : Duration := 1000000000.

(** ** Formatting *)

(** The verb [%d] of [fmt]. *)
Definition fmt_d (z : Z) : string := NilZero.string_of_int (Z.to_int z).

(** ** Errors

    [errors.New], [errors.Wrapf] (github.com/pkg/errors), [fmt.Errorf] and
    the aggregate of go.uber.org/multierr. *)

#[local] Set Warnings "-register-all".

(** An error value: what [errors.New] and [fmt.Errorf] build, an error
    annotated by [errors.Wrapf], or the aggregate of [multierr].  The
    errors of the underlying transport are values of this type too. *)
Inductive error : Type :=
| errors_New (msg : string)
| fmt_Errorf (msg : string)
| withMessage (cause : error) (msg : string)
| multiError (errs : list error).

(** [errors.Wrapf(err, format, args...)]: nil for a nil [err], otherwise
    [err] annotated with the formatted message (and a stack trace, which
    carries no information here). *)
Definition errors_Wrapf (err : option error) (msg : string) : option error :=
  match err with
  | None => None
  | Some e => Some (withMessage e msg)
  end.

(** [multierr.Errors]: the errors an error value stands for. *)
Definition multierr_Errors (err : option error) : list error :=
  match err with
  | None => []
  | Some (multiError errs) => errs
  | Some e => [e]
  end.

(** [multierr.Append]: nil operands are dropped, aggregates are flattened
    one level, everything else is collected in order. *)
Definition multierr_Append (left right : option error) : option error :=
  match left, right with
  | None, _ => right
  | _, None => left
  | Some _, Some _ => Some (multiError (multierr_Errors left ++ multierr_Errors right))
  end.

Fixpoint join (sep : string) (l : list string) : string :=
  match l with
  | [] => EmptyString
  | [s] => s
  | s :: rest => s +:+ sep +:+ join sep rest
  end.

(** The [Error()] method. *)
Fixpoint Error (e : error) : string :=
  match e with
  | errors_New msg => msg
  | fmt_Errorf msg => msg
  | withMessage cause msg => msg +:+ ": " +:+ Error cause
  | multiError errs => join "; " (List.map Error errs)
  end.

(** [strings.Contains]. *)
Fixpoint has_prefix (p s : string) : bool :=
  match p, s with
  | EmptyString, _ => true
  | String a p', String b s' => Ascii.eqb a b && has_prefix p' s'
  | String _ _, EmptyString => false
  end.

Fixpoint Contains (s substr : string) : bool :=
  has_prefix substr s ||
  match s with
  | EmptyString => false
  | String _ s' => Contains s' substr
  end.

Definition is_multiError (e : error) : bool :=
  match e with
  | multiError _ => true
  | _ => false
  end.

(** ** [net/http] and [crypto/tls] *)

Definition StatusOK : Z := 200.
Definition StatusNotFound : Z := 404.
Definition StatusInternalServerError : Z := 500.
Definition StatusBadGateway : Z := 502.
Definition StatusServiceUnavailable : Z := 503.
Definition StatusGatewayTimeout : Z := 504.

(** [http.StatusText]: the reason phrase of a status code, the empty
    string for a code it does not know. *)
Definition http_StatusText (code : Z) : string :=
  match code with
  | 100 => "Continue"
  | 101 => "Switching Protocols"
  | 102 => "Processing"
  | 103 => "Early Hints"
  | 200 => "OK"
  | 201 => "Created"
  | 202 => "Accepted"
  | 203 => "Non-Authoritative Information"
  | 204 => "No Content"
  | 205 => "Reset Content"
  | 206 => "Partial Content"
  | 207 => "Multi-Status"
  | 208 => "Already Reported"
  | 226 => "IM Used"
  | 300 => "Multiple Choices"
  | 301 => "Moved Permanently"
  | 302 => "Found"
  | 303 => "See Other"
  | 304 => "Not Modified"
  | 305 => "Use Proxy"
  | 307 => "Temporary Redirect"
  | 308 => "Permanent Redirect"
  | 400 => "Bad Request"
  | 401 => "Unauthorized"
  | 402 => "Payment Required"
  | 403 => "Forbidden"
  | 404 => "Not Found"
  | 405 => "Method Not Allowed"
  | 406 => "Not Acceptable"
  | 407 => "Proxy Authentication Required"
  | 408 => "Request Timeout"
  | 409 => "Conflict"
  | 410 => "Gone"
  | 411 => "Length Required"
  | 412 => "Precondition Failed"
  | 413 => "Request Entity Too Large"
  | 414 => "Request URI Too Long"
  | 415 => "Unsupported Media Type"
  | 416 => "Requested Range Not Satisfiable"
  | 417 => "Expectation Failed"
  | 418 => "I'm a teapot"
  | 421 => "Misdirected Request"
  | 422 => "Unprocessable Entity"
  | 423 => "Locked"
  | 424 => "Failed Dependency"
  | 425 => "Too Early"
  | 426 => "Upgrade Required"
  | 428 => "Precondition Required"
  | 429 => "Too Many Requests"
  | 431 => "Request Header Fields Too Large"
  | 451 => "Unavailable For Legal Reasons"
  | 500 => "Internal Server Error"
  | 501 => "Not Implemented"
  | 502 => "Bad Gateway"
  | 503 => "Service Unavailable"
  | 504 => "Gateway Timeout"
  | 505 => "HTTP Version Not Supported"
  | 506 => "Variant Also Negotiates"
  | 507 => "Insufficient Storage"
  | 508 => "Loop Detected"
  | 510 => "Not Extended"
  | 511 => "Network Authentication Required"
  | _ => EmptyString
  end.

(** The part of [*http.Response] the retry layer reads, and an opaque
    payload. *)
Record http_Response : Type := {
  StatusCode : Z;
  Body : string;
}.

Definition VersionTLS12 : Z := 771.

Record tls_Config : Type := {
  MinVersion : Z;
  InsecureSkipVerify : bool;
}.

(** The fields of [http.Transport] the constructor writes, and one it
    leaves alone. *)
Record http_Transport : Type := {
  t_MaxIdleConns : Z;
  t_IdleConnTimeout : Duration;
  t_TLSHandshakeTimeout : Duration;
  t_ExpectContinueTimeout : Duration;
  t_ResponseHeaderTimeout : Duration;
  ForceAttemptHTTP2 : bool;
  TLSClientConfig : option tls_Config;
}.

(** ** The store: map objects and transport objects behind references *)

Definition loc : Type := nat.

Record Store : Type := {
  maps : gmap loc (gmap Z string);
  transports : gmap loc http_Transport;
}.

(** [make(map[int]string)]: a new empty map object. *)
Definition make_map (s : Store) : loc * Store :=
  let l := fresh (dom (maps s)) in
  (l, {| maps := <[l := ∅]> (maps s); transports := transports s |}).

(** The contents behind a map reference; a reference to no object reads
    as the nil map. *)
Definition map_contents (s : Store) (m : loc) : gmap Z string :=
  default ∅ (maps s !! m).

(** [v, ok := m[k]]. *)
Definition map_index (s : Store) (m : loc) (k : Z) : option string :=
  map_contents s m !! k.

(** [m[k] = v] on an allocated map (every map written by this package
    comes from [make_map]). *)
Definition map_assign (m : loc) (k : Z) (v : string) (s : Store) : Store :=
  {| maps := alter (insert k v) m (maps s); transports := transports s |}.

(** Writing the object behind a [*http.Transport]. *)
Definition transport_write (p : loc) (t : http_Transport) (s : Store) : Store :=
  {| maps := maps s; transports := <[p := t]> (transports s) |}.

(** ** Package-level variables *)

(** [var defaultRetryStatusMap]: the map object the variable refers to. *)
Definition defaultRetryStatusMap : loc := 0%nat.

(** [http.DefaultTransport]: the [*http.Transport] the variable holds. *)
Definition http_DefaultTransport : loc := 0%nat.

(** The composite literal initialising [defaultRetryStatusMap]. *)
Definition defaultRetryStatusMap_literal : gmap Z string :=
  <[StatusInternalServerError := "서버 처리 불가로 재시도"]>
  (<[StatusBadGateway := "게이트웨이 오류로 재시도"]>
  (<[StatusServiceUnavailable := "서비스 사용 불가상태로 재시도"]>
  (<[StatusGatewayTimeout := "게이트웨이 타임아웃으로 재시도"]> ∅))).

(** The transport [net/http] installs as [DefaultTransport]. *)
Definition http_DefaultTransport_initial : http_Transport :=
  {| t_MaxIdleConns := 100;
     t_IdleConnTimeout := 90 * Second;
     t_TLSHandshakeTimeout := 10 * Second;
     t_ExpectContinueTimeout := 1 * Second;
     t_ResponseHeaderTimeout := 0;
     ForceAttemptHTTP2 := true;
     TLSClientConfig := None |}.

(** The store after package initialisation. *)
Definition initial_store : Store :=
  {| maps := {[ defaultRetryStatusMap := defaultRetryStatusMap_literal ]};
     transports := {[ http_DefaultTransport := http_DefaultTransport_initial ]} |}.

(** ** [Settings] and its options *)

Record Settings : Type := {
  MaxRetry : Z;
  DebugMode : bool;
  Insecure : bool;
  MaxIdleConns : Z;
  IdleConnTimeout : Duration;
  TLSHandshakeTimeout : Duration;
  ExpectContinueTimeout : Duration;
  ResponseHeaderTimeout : Duration;
  RequestTimeout : Duration;
  BackoffPolicy : option (Z -> option Duration);
}.

(** An option is a function on a [Settings] pointer: it updates the
    settings it is applied to. *)
Definition HTTPOption : Type := Settings -> Settings.

(** [time.Duration(1<<attempt) * time.Second]; the untyped constant 1
    takes the type [time.Duration], so the shift is a 64-bit one. *)
Definition defaultBackoffPolicy (attempt : Z) : option Duration :=
  match int_shl 1 attempt with
  | None => None
  | Some d => Some (int_mul d Second)
  end.

Definition NewHTTPSettings (opts : list HTTPOption) : Settings :=
  let settings :=
    {| MaxRetry := 3;
       DebugMode := false;
       Insecure := true;
       MaxIdleConns := 15;
       IdleConnTimeout := 90 * Second;
       TLSHandshakeTimeout := 10 * Second;
       ExpectContinueTimeout := 1 * Second;
       ResponseHeaderTimeout := 10 * Second;
       RequestTimeout := 10 * Second;
       BackoffPolicy := Some defaultBackoffPolicy |} in
  fold_left (fun s (opt : HTTPOption) => opt s) opts settings.

Definition WithMaxRetry (maxRetry : Z) : HTTPOption := fun s =>
  {| MaxRetry := maxRetry; DebugMode := DebugMode s; Insecure := Insecure s;
     MaxIdleConns := MaxIdleConns s; IdleConnTimeout := IdleConnTimeout s;
     TLSHandshakeTimeout := TLSHandshakeTimeout s;
     ExpectContinueTimeout := ExpectContinueTimeout s;
     ResponseHeaderTimeout := ResponseHeaderTimeout s;
     RequestTimeout := RequestTimeout s; BackoffPolicy := BackoffPolicy s |}.

Definition WithDebugMode (isDebug : bool) : HTTPOption := fun s =>
  {| MaxRetry := MaxRetry s; DebugMode := isDebug; Insecure := Insecure s;
     MaxIdleConns := MaxIdleConns s; IdleConnTimeout := IdleConnTimeout s;
     TLSHandshakeTimeout := TLSHandshakeTimeout s;
     ExpectContinueTimeout := ExpectContinueTimeout s;
     ResponseHeaderTimeout := ResponseHeaderTimeout s;
     RequestTimeout := RequestTimeout s; BackoffPolicy := BackoffPolicy s |}.

Definition WithInsecure (insecure : bool) : HTTPOption := fun s =>
  {| MaxRetry := MaxRetry s; DebugMode := DebugMode s; Insecure := insecure;
     MaxIdleConns := MaxIdleConns s; IdleConnTimeout := IdleConnTimeout s;
     TLSHandshakeTimeout := TLSHandshakeTimeout s;
     ExpectContinueTimeout := ExpectContinueTimeout s;
     ResponseHeaderTimeout := ResponseHeaderTimeout s;
     RequestTimeout := RequestTimeout s; BackoffPolicy := BackoffPolicy s |}.

Definition WithIdleConnTimeout (timeout : Duration) : HTTPOption := fun s =>
  {| MaxRetry := MaxRetry s; DebugMode := DebugMode s; Insecure := Insecure s;
     MaxIdleConns := MaxIdleConns s; IdleConnTimeout := timeout;
     TLSHandshakeTimeout := TLSHandshakeTimeout s;
     ExpectContinueTimeout := ExpectContinueTimeout s;
     ResponseHeaderTimeout := ResponseHeaderTimeout s;
     RequestTimeout := RequestTimeout s; BackoffPolicy := BackoffPolicy s |}.

Definition WithTLSHandshakeTimeout (timeout : Duration) : HTTPOption := fun s =>
  {| MaxRetry := MaxRetry s; DebugMode := DebugMode s; Insecure := Insecure s;
     MaxIdleConns := MaxIdleConns s; IdleConnTimeout := IdleConnTimeout s;
     TLSHandshakeTimeout := timeout;
     ExpectContinueTimeout := ExpectContinueTimeout s;
     ResponseHeaderTimeout := ResponseHeaderTimeout s;
     RequestTimeout := RequestTimeout s; BackoffPolicy := BackoffPolicy s |}.

Definition WithExpectContinueTimeout (timeout : Duration) : HTTPOption := fun s =>
  {| MaxRetry := MaxRetry s; DebugMode := DebugMode s; Insecure := Insecure s;
     MaxIdleConns := MaxIdleConns s; IdleConnTimeout := IdleConnTimeout s;
     TLSHandshakeTimeout := TLSHandshakeTimeout s;
     ExpectContinueTimeout := timeout;
     ResponseHeaderTimeout := ResponseHeaderTimeout s;
     RequestTimeout := RequestTimeout s; BackoffPolicy := BackoffPolicy s |}.

Definition WithResponseHeaderTimeout (timeout : Duration) : HTTPOption := fun s =>
  {| MaxRetry := MaxRetry s; DebugMode := DebugMode s; Insecure := Insecure s;
     MaxIdleConns := MaxIdleConns s; IdleConnTimeout := IdleConnTimeout s;
     TLSHandshakeTimeout := TLSHandshakeTimeout s;
     ExpectContinueTimeout := ExpectContinueTimeout s;
     ResponseHeaderTimeout := timeout;
     RequestTimeout := RequestTimeout s; BackoffPolicy := BackoffPolicy s |}.

Definition WithRequestTimeout (timeout : Duration) : HTTPOption := fun s =>
  {| MaxRetry := MaxRetry s; DebugMode := DebugMode s; Insecure := Insecure s;
     MaxIdleConns := MaxIdleConns s; IdleConnTimeout := IdleConnTimeout s;
     TLSHandshakeTimeout := TLSHandshakeTimeout s;
     ExpectContinueTimeout := ExpectContinueTimeout s;
     ResponseHeaderTimeout := ResponseHeaderTimeout s;
     RequestTimeout := timeout; BackoffPolicy := BackoffPolicy s |}.

Definition WithMaxIdleConns (maxIdleConns : Z) : HTTPOption := fun s =>
  {| MaxRetry := MaxRetry s; DebugMode := DebugMode s; Insecure := Insecure s;
     MaxIdleConns := maxIdleConns; IdleConnTimeout := IdleConnTimeout s;
     TLSHandshakeTimeout := TLSHandshakeTimeout s;
     ExpectContinueTimeout := ExpectContinueTimeout s;
     ResponseHeaderTimeout := ResponseHeaderTimeout s;
     RequestTimeout := RequestTimeout s; BackoffPolicy := BackoffPolicy s |}.

Definition WithBackoffPolicy (policy : option (Z -> option Duration)) : HTTPOption := fun s =>
  {| MaxRetry := MaxRetry s; DebugMode := DebugMode s; Insecure := Insecure s;
     MaxIdleConns := MaxIdleConns s; IdleConnTimeout := IdleConnTimeout s;
     TLSHandshakeTimeout := TLSHandshakeTimeout s;
     ExpectContinueTimeout := ExpectContinueTimeout s;
     ResponseHeaderTimeout := ResponseHeaderTimeout s;
     RequestTimeout := RequestTimeout s; BackoffPolicy := policy |}.

(** ** The retrying transport and its constructor *)

Record retriableTransport : Type := {
  RoundTripper : loc;
  requestTimeout : Duration;
  maxRetries : Z;
  retryStatusCodes : loc;
  backoffPolicy : option (Z -> option Duration);
  debugMode : bool;
}.

(** [extendDefault]: a fresh map receives the entries of the default map
    (in the order [range] happens to deliver them) and then, for each
    additional code it does not hold yet, that code with its status text.
    Returns the reference to the fresh map. *)
Definition extendDefault (additional : list Z) (s : Store) : loc * Store :=
  let '(retryMap, s1) := make_map s in
  let s2 :=
    fold_left
      (fun st '(code, msg) => map_assign retryMap code msg st)
      (map_to_list (map_contents s1 defaultRetryStatusMap)) s1 in
  let s3 :=
    fold_left
      (fun st code =>
         match map_index st retryMap code with
         | Some _ => st
         | None => map_assign retryMap code (http_StatusText code) st
         end)
      additional s2 in
  (retryMap, s3).

(** [newRetriableTransport].  The first block writes through the pointer
    held by [http.DefaultTransport]; the type assertion panics when that
    variable holds no [*http.Transport].  The second block builds the
    registry and fills a nil backoff policy in the caller's settings.
    Returns the transport, the settings as the call leaves them, and the
    store. *)
Definition newRetriableTransport
    (settings : option Settings) (retryStatusCodes : list Z) (s : Store)
  : option (retriableTransport * Settings * Store) :=
  let settings :=
    match settings with
    | None => NewHTTPSettings []
    | Some st => st
    end in
  let transport := http_DefaultTransport in
  match transports s !! transport with
  | None => None
  | Some t =>
    let t :=
      {| t_MaxIdleConns := MaxIdleConns settings;
         t_IdleConnTimeout := IdleConnTimeout settings;
         t_TLSHandshakeTimeout := TLSHandshakeTimeout settings;
         t_ExpectContinueTimeout := ExpectContinueTimeout settings;
         t_ResponseHeaderTimeout := ResponseHeaderTimeout settings;
         ForceAttemptHTTP2 := ForceAttemptHTTP2 t;
         TLSClientConfig :=
           Some {| MinVersion := VersionTLS12;
                   InsecureSkipVerify :=
                     if Insecure settings then true else false |} |} in
    let s := transport_write transport t s in
    let '(retryMap, s) := extendDefault retryStatusCodes s in
    let settings :=
      match BackoffPolicy settings with
      | None => WithBackoffPolicy (Some defaultBackoffPolicy) settings
      | Some _ => settings
      end in
    Some ({| RoundTripper := transport;
             requestTimeout := RequestTimeout settings;
             maxRetries := MaxRetry settings;
             retryStatusCodes := retryMap;
             backoffPolicy := BackoffPolicy settings;
             debugMode := DebugMode settings |},
          settings, s)
  end.

(** [&http.Client{Transport: ...}]. *)
Record http_Client : Type := {
  Transport : retriableTransport;
}.

Definition NewClient (settings : option Settings) (retryStatusCodes : list Z) (s : Store)
  : option (http_Client * Settings * Store) :=
  match newRetriableTransport settings retryStatusCodes s with
  | None => None
  | Some (rt, settings, s) => Some ({| Transport := rt |}, settings, s)
  end.

(** ** One call of [RoundTrip] *)

Record http_Request : Type := {
  Method : string;
  URL : string;
}.

(** How the [select] of one attempt resolves: the timer fires first, or
    the goroutine running the underlying [RoundTrip] closes [done] first,
    having stored its two results. *)
Inductive RaceResult : Type :=
| TimerFired
| Done (response : option http_Response) (respErr : option error).

(** What one call does, in order: an attempt (the underlying transport is
    invoked, and the select resolves), a debug line, a call of the backoff
    policy, a sleep. *)
Inductive Event : Type :=
| EvAttempt (attempt : Z) (r : RaceResult)
| EvLog (line : string)
| EvBackoff (attempt : Z)
| EvSleep (d : Duration).

(** The outside world of a call, as three oracles on a state [W]:
    whether [req.Context().Err()] is non-nil, the race of the underlying
    transport against a timer of the given length, and [time.Sleep]. *)
Record Environment (W : Type) : Type := {
  ctx_Err : http_Request -> W -> bool;
  race : http_Request -> Duration -> W -> RaceResult * W;
  time_Sleep : Duration -> W -> W;
}.

Arguments ctx_Err {W} _ _ _.
Arguments race {W} _ _ _ _.
Arguments time_Sleep {W} _ _ _.

Record RunState (W : Type) : Type := {
  world : W;
  trace : list Event;
}.

Arguments world {W} _.
Arguments trace {W} _.

Definition emit {W : Type} (ev : Event) (st : RunState W) : RunState W :=
  {| world := world st; trace := trace st ++ [ev] |}.

Definition set_world {W : Type} (w : W) (st : RunState W) : RunState W :=
  {| world := w; trace := trace st |}.

(** How a call ends: it returns its two results, or it panics; [OutOfFuel]
    is the model running out of iterations, which [RoundTrip] never does. *)
Inductive Exit : Type :=
| Returned (response : option http_Response) (err : option error)
| Panicked
| OutOfFuel.

(** Where control goes after one pass through the loop body: on to the
    next iteration, out of the loop by [break], out of the function by
    [return], or a panic. *)
Inductive Flow (W : Type) : Type :=
| Continue (allErrors : option error) (st : RunState W)
| Break (allErrors : option error) (st : RunState W)
| Return (response : option http_Response) (err : option error) (st : RunState W)
| Panic (st : RunState W).

Arguments Continue {W} _ _.
Arguments Break {W} _ _.
Arguments Return {W} _ _ _.
Arguments Panic {W} _.

Definition LF : string := String (ascii_of_nat 10) EmptyString.

Section RoundTrip.

Context {W : Type}.
Variable env : Environment W.
Variable s : Store.
Variable rt : retriableTransport.
Variable req : http_Request.

Definition shouldRetry (statusCode : Z) (err : option error) : bool * option error :=
  match err with
  | Some e => (true, Some e)
  | None =>
    match map_index s (retryStatusCodes rt) statusCode with
    | Some reason => (true, Some (errors_New reason))
    | None => (false, None)
    end
  end.

(** [debugLog]; [err.Error()] on a nil error panics. *)
Definition debugLog (attempt statusCode : Z) (err : option error)
    (st : RunState W) : option (RunState W) :=
  if debugMode rt then
    match err with
    | None => None
    | Some e =>
      Some (emit (EvLog ("retrying request. Attempt: " +:+ fmt_d attempt
                         +:+ ", StatusCode: " +:+ fmt_d statusCode
                         +:+ ", Error: " +:+ Error e +:+ LF)) st)
    end
  else Some st.

(** The body of the [for] loop for one value of [attempt], from the
    cancellation check to the end of the [select]. *)
Definition RoundTrip_body (attempt : Z) (allErrors : option error)
    (st : RunState W) : Flow W :=
  if ctx_Err env req (world st) then
    Break
      (multierr_Append allErrors
         (Some (errors_New "cancelled from parent context"))) st
  else if maxRetries rt <? attempt then
    Break
      (multierr_Append allErrors (Some (errors_New "max retries reached"))) st
  else
    let '(r, w) := race env req (requestTimeout rt) (world st) in
    let st := emit (EvAttempt attempt r) (set_world w st) in
    match r with
    | TimerFired =>
      let statusCode := -1 in
      let timeoutErr :=
        Some (fmt_Errorf ("request timeout attempt(" +:+ fmt_d attempt +:+ ")")) in
      match debugLog attempt statusCode timeoutErr st with
      | None => Panic st
      | Some st => Continue (multierr_Append allErrors timeoutErr) st
      end
    | Done response respErr =>
      let statusCode :=
        match response with
        | Some resp => StatusCode resp
        | None => -1
        end in
      let '(retry, retryErr) := shouldRetry statusCode respErr in
      if retry then
        let allErrors :=
          multierr_Append allErrors
            (errors_Wrapf retryErr ("attempt(" +:+ fmt_d attempt +:+ ")")) in
        match debugLog attempt statusCode retryErr st with
        | None => Panic st
        | Some st =>
          match backoffPolicy rt with
          | None => Panic st
          | Some policy =>
            let st := emit (EvBackoff attempt) st in
            match policy attempt with
            | None => Panic st
            | Some d =>
              Continue allErrors
                (emit (EvSleep d) (set_world (time_Sleep env d (world st)) st))
            end
          end
        end
      else Return response None st
    end.

(** The [for] loop, entered at its condition; [break] and a false
    condition both reach [return nil, allErrors]. *)
Fixpoint RoundTrip_loop (fuel : nat) (attempt : Z) (allErrors : option error)
    (st : RunState W) : Exit * RunState W :=
  match fuel with
  | O => (OutOfFuel, st)
  | S fuel =>
    if attempt <=? int_add (maxRetries rt) 1 then
      match RoundTrip_body attempt allErrors st with
      | Continue allErrors st =>
        RoundTrip_loop fuel (int_add attempt 1) allErrors st
      | Break allErrors st => (Returned None allErrors, st)
      | Return response err st => (Returned response err, st)
      | Panic st => (Panicked, st)
      end
    else (Returned None allErrors, st)
  end.

Definition RoundTrip (w : W) : Exit * RunState W :=
  RoundTrip_loop (S (Z.to_nat (maxRetries rt))) 1 None {| world := w; trace := [] |}.

End RoundTrip.

(** ** Reading a trace *)

(** The attempt numbers with which the underlying transport was invoked. *)
Definition transport_calls (tr : list Event) : list Z :=
  omap (fun ev => match ev with EvAttempt a _ => Some a | _ => None end) tr.

(** The attempts together with how each resolved. *)
Definition attempts (tr : list Event) : list (Z * RaceResult) :=
  omap (fun ev => match ev with EvAttempt a r => Some (a, r) | _ => None end) tr.

(** The attempt numbers with which the backoff policy was called. *)
Definition backoff_calls (tr : list Event) : list Z :=
  omap (fun ev => match ev with EvBackoff a => Some a | _ => None end) tr.

(** The durations slept. *)
Definition sleeps (tr : list Event) : list Duration :=
  omap (fun ev => match ev with EvSleep d => Some d | _ => None end) tr.

(** ** A scripted environment

    A world that delivers a prepared list of race results, one per
    attempt (the timer wins once the list is used up), reports the
    context as cancelled or not, and adds up the time slept. *)

Record Script : Type := {
  pending : list RaceResult;
  cancelled : bool;
  slept : Duration;
}.

Definition scripted : Environment Script :=
  {| ctx_Err := fun _ w => cancelled w;
     race := fun _ _ w =>
       match pending w with
       | [] => (TimerFired, w)
       | r :: rest =>
         (r, {| pending := rest; cancelled := cancelled w; slept := slept w |})
       end;
     time_Sleep := fun d w =>
       {| pending := pending w; cancelled := cancelled w; slept := slept w + d |} |}.

Definition script (rs : list RaceResult) : Script :=
  {| pending := rs; cancelled := false; slept := 0 |}.

Definition respond (code : Z) : RaceResult :=
  Done (Some {| StatusCode := code; Body := EmptyString |}) None.

Definition GET (url : string) : http_Request := {| Method := "GET"; URL := url |}.

(** One call through a freshly built client: the constructor runs in the
    initial store, then [RoundTrip] runs against a scripted world.  The
    result is how the call ended, the attempt numbers with which the
    underlying transport was invoked, and the attempt numbers with which
    the backoff policy was called. *)
Definition run_client (settings : option Settings) (codes : list Z)
    (req : http_Request) (w : Script) : option (Exit * list Z * list Z) :=
  match newRetriableTransport settings codes initial_store with
  | Some (rt, _, s) =>
    let r := RoundTrip scripted s rt req w in
    Some (r.1, transport_calls (trace r.2), backoff_calls (trace r.2))
  | None => None
  end.

(** The transport and the store that
    [newRetriableTransport (Some (NewHTTPSettings [WithMaxRetry maxRetry])) []]
    builds in the initial store. *)
Definition demo_transport (maxRetry : Z) : retriableTransport :=
  {| RoundTripper := http_DefaultTransport;
     requestTimeout := 10 * Second;
     maxRetries := maxRetry;
     retryStatusCodes := 1%nat;
     backoffPolicy := Some defaultBackoffPolicy;
     debugMode := false |}.

Definition demo_store : Store :=
  {| maps := <[1%nat := defaultRetryStatusMap_literal]> (maps initial_store);
     transports :=
       {[ http_DefaultTransport :=
            {| t_MaxIdleConns := 15;
               t_IdleConnTimeout := 90 * Second;
               t_TLSHandshakeTimeout := 10 * Second;
               t_ExpectContinueTimeout := 1 * Second;
               t_ResponseHeaderTimeout := 10 * Second;
               ForceAttemptHTTP2 := true;
               TLSClientConfig :=
                 Some {| MinVersion := VersionTLS12; InsecureSkipVerify := true |} |} ]} |}.

(** ** Descriptions used by the statements *)

(** The registry a transport consults: the contents of its map. *)
Definition registry (s : Store) (rt : retriableTransport) : gmap Z string :=
  map_contents s (retryStatusCodes rt).

(** The retry decision as a function of the registry contents and the two
    inputs alone: a failure is always retried with itself as the reason; a
    registered status code is retried with its registered text; anything
    else is not retried. *)
Definition decide_retry (registry : gmap Z string) (statusCode : Z)
    (failure : option error) : bool * option error :=
  match failure, registry !! statusCode with
  | Some e, _ => (true, Some e)
  | None, Some reason => (true, Some (errors_New reason))
  | None, None => (false, None)
  end.

(** The status code an attempt is judged by: that of the response, or the
    sentinel -1 when there is none. *)
Definition status_of (response : option http_Response) : Z :=
  match response with
  | Some resp => StatusCode resp
  | None => -1
  end.

(** The failure reason of an attempt that is retried, tagged with the
    attempt number; [None] for an attempt that is not retried. *)
Definition tagged_reason (registry : gmap Z string) (attempt : Z)
    (r : RaceResult) : option error :=
  match r with
  | TimerFired =>
    Some (fmt_Errorf ("request timeout attempt(" +:+ fmt_d attempt +:+ ")"))
  | Done response (Some e) =>
    Some (withMessage e ("attempt(" +:+ fmt_d attempt +:+ ")"))
  | Done response None =>
    match registry !! status_of response with
    | Some reason =>
      Some (withMessage (errors_New reason) ("attempt(" +:+ fmt_d attempt +:+ ")"))
    | None => None
    end
  end.

(** The tagged reasons of a list of attempts, in order. *)
Definition tagged_reasons (registry : gmap Z string)
    (atts : list (Z * RaceResult)) : list error :=
  omap (fun '(a, r) => tagged_reason registry a r) atts.

(** Whether an attempt completed before its timer with a retry verdict. *)
Definition completed_retry (registry : gmap Z string) (r : RaceResult) : bool :=
  match r with
  | TimerFired => false
  | Done response (Some _) => true
  | Done response None => bool_decide (is_Some (registry !! status_of response))
  end.

(** Whether an attempt is retried at all. *)
Definition retried (registry : gmap Z string) (r : RaceResult) : bool :=
  match r with
  | TimerFired => true
  | _ => completed_retry registry r
  end.

(** The two terminal reasons. *)
Definition cancelled_reason : error := errors_New "cancelled from parent context".
Definition exhausted_reason : error := errors_New "max retries reached".

(** The integers [from, from + 1, ...], [n] of them. *)
Fixpoint count_from (from : Z) (n : nat) : list Z :=
  match n with
  | O => []
  | S n => from :: count_from (from + 1) n
  end.


(** The settings a constructor call works with: the caller's, or the
    defaults of [NewHTTPSettings] for a nil pointer. *)
Definition effective (settings : option Settings) : Settings :=
  match settings with
  | None => NewHTTPSettings []
  | Some st => st
  end.

(** The backoff policy cannot be called for [attempt]: the function value
    is nil, or the call panics. *)
Definition policy_fails (rt : retriableTransport) (attempt : Z) : Prop :=
  match backoffPolicy rt with
  | None => True
  | Some policy => policy attempt = None
  end.

(** The backoff policy is a function that returns a delay for every
    attempt number within the budget. *)
Definition backoff_defined (rt : retriableTransport) : Prop :=
  forall attempt, 1 <= attempt <= maxRetries rt ->
    exists policy d, backoffPolicy rt = Some policy /\ policy attempt = Some d.

(** What one pass through the loop body does, by the way it leaves. *)
Definition body_post {W : Type} (env : Environment W) (s : Store)
    (rt : retriableTransport) (req : http_Request)
    (attempt : Z) (allErrors : option error) (st : RunState W)
    (f : Flow W) : Prop :=
  match f with
  | Break allErrors' st' =>
    st' = st /\
    ((ctx_Err env req (world st) = true /\
      allErrors' = multierr_Append allErrors (Some cancelled_reason)) \/
     (ctx_Err env req (world st) = false /\ maxRetries rt < attempt /\
      allErrors' = multierr_Append allErrors (Some exhausted_reason)))
  | Continue allErrors' st' =>
    ctx_Err env req (world st) = false /\ attempt <= maxRetries rt /\
    exists r reason,
      attempts (trace st') = attempts (trace st) ++ [(attempt, r)] /\
      backoff_calls (trace st') =
        backoff_calls (trace st) ++
        (if completed_retry (registry s rt) r then [attempt] else []) /\
      tagged_reason (registry s rt) attempt r = Some reason /\
      retried (registry s rt) r = true /\
      allErrors' = multierr_Append allErrors (Some reason)
  | Return response err st' =>
    ctx_Err env req (world st) = false /\ attempt <= maxRetries rt /\
    err = None /\
    attempts (trace st') = attempts (trace st) ++ [(attempt, Done response None)] /\
    backoff_calls (trace st') = backoff_calls (trace st) /\
    retried (registry s rt) (Done response None) = false
  | Panic st' =>
    attempt <= maxRetries rt /\ policy_fails rt attempt /\
    exists r, attempts (trace st') = attempts (trace st) ++ [(attempt, r)]
  end.

(** How the two results of a call that returned relate to the attempts
    the loop made since it held [allErrors0]: either the last attempt
    completed with a verdict not to retry, every earlier one was retried,
    and the call returns that attempt's response with a nil error; or
    every attempt was retried and the call returns no response and an
    error that stands for the errors of [allErrors0], then the tagged
    reasons of the attempts in order, then the terminal reason. *)
Definition returned_post (reg : gmap Z string) (allErrors0 : option error)
    (atts : list (Z * RaceResult))
    (response : option http_Response) (err : option error) : Prop :=
  (err = None /\
   exists atts0 a,
     atts = atts0 ++ [(a, Done response None)] /\
     Forall (fun ar => retried reg ar.2 = true) atts0 /\
     retried reg (Done response None) = false) \/
  (response = None /\
   Forall (fun ar => retried reg ar.2 = true) atts /\
   exists terminal,
     (terminal = cancelled_reason \/ terminal = exhausted_reason) /\
     multierr_Errors err =
       multierr_Errors allErrors0 ++ tagged_reasons reg atts ++ [terminal]).

(** What the loop does when entered at [attempt] with [fuel] iterations
    allowed: the attempts it adds to the trace are numbered consecutively
    from [attempt] and stay within the budget; if it returns, the backoff
    calls and the results are as described; it panics only in the backoff
    policy; it runs out of fuel only when given too little. *)
Definition loop_post {W : Type} (s : Store) (rt : retriableTransport)
    (fuel : nat) (attempt : Z) (allErrors : option error)
    (st : RunState W) (res : Exit * RunState W) : Prop :=
  exists atts,
    attempts (trace res.2) = attempts (trace st) ++ atts /\
    List.map fst atts = count_from attempt (length atts) /\
    attempt + Z.of_nat (length atts) <= Z.max attempt (maxRetries rt + 1) /\
    match res.1 with
    | Returned response err =>
      backoff_calls (trace res.2) =
        backoff_calls (trace st) ++
        List.map fst
          (List.filter (fun ar => completed_retry (registry s rt) ar.2) atts) /\
      (returned_post (registry s rt) allErrors atts response err \/
       (response = None /\ err = allErrors /\ atts = [] /\
        int_add (maxRetries rt) 1 < attempt))
    | Panicked =>
      exists a, attempt <= a <= maxRetries rt /\ policy_fails rt a
    | OutOfFuel => Z.of_nat fuel <= Z.max 0 (maxRetries rt - attempt + 1)
    end.

(** The backoff sequence of a trace if the policy were called once after
    every retried attempt: 1, 2, ... up to the number of retried
    attempts. *)
Definition backoff_after_every_retry (reg : gmap Z string) (tr : list Event) : Prop :=
  backoff_calls tr =
  count_from 1 (length (List.filter (fun ar => retried reg ar.2) (attempts tr))).

(** A call hands back exactly one of a response and an error. *)
Definition response_xor_error (ex : Exit) : Prop :=
  match ex with
  | Returned response err =>
    (is_Some response /\ err = None) \/ (response = None /\ is_Some err)
  | _ => True
  end.

(** ** Descriptions used by the further properties *)

(** An environment whose context is never cancelled and whose race always
    resolves the same way; the world counts the invocations of the
    underlying transport. *)
Definition steady (r : RaceResult) : Environment nat :=
  {| ctx_Err := fun _ _ => false;
     race := fun _ _ n => (r, S n);
     time_Sleep := fun _ n => n |}.

(** The debug lines written. *)
Definition log_lines (tr : list Event) : list string :=
  omap (fun ev => match ev with EvLog line => Some line | _ => None end) tr.

(** A trace without its debug lines. *)
Definition strip_logs (tr : list Event) : list Event :=
  List.filter (fun ev => match ev with EvLog _ => false | _ => true end) tr.

(** The same transport with another debug flag. *)
Definition with_debugMode (b : bool) (rt : retriableTransport) : retriableTransport :=
  {| RoundTripper := RoundTripper rt;
     requestTimeout := requestTimeout rt;
     maxRetries := maxRetries rt;
     retryStatusCodes := retryStatusCodes rt;
     backoffPolicy := backoffPolicy rt;
     debugMode := b |}.

(** The state a pass through the loop body leaves. *)
Definition flow_state {W : Type} (f : Flow W) : RunState W :=
  match f with
  | Continue _ st | Break _ st | Return _ _ st | Panic st => st
  end.

(** Two states that differ in their debug lines at most. *)
Definition same_but_logs {W : Type} (st2 st1 : RunState W) : Prop :=
  world st2 = world st1 /\ strip_logs (trace st2) = strip_logs (trace st1).

(** Two passes through the loop body that leave the same way, with the
    same results, in states that differ in their debug lines at most. *)
Definition flows_agree {W : Type} (f2 f1 : Flow W) : Prop :=
  match f2, f1 with
  | Continue allErrors2 st2, Continue allErrors1 st1 =>
    allErrors2 = allErrors1 /\ same_but_logs st2 st1
  | Break allErrors2 st2, Break allErrors1 st1 =>
    allErrors2 = allErrors1 /\ same_but_logs st2 st1
  | Return response2 err2 st2, Return response1 err1 st1 =>
    response2 = response1 /\ err2 = err1 /\ same_but_logs st2 st1
  | Panic st2, Panic st1 => same_but_logs st2 st1
  | _, _ => False
  end.

(** The line [debugLog] prints for an attempt, a status code and an
    error. *)
Definition debug_line (attempt statusCode : Z) (e : error) : string :=
  "retrying request. Attempt: " +:+ fmt_d attempt
  +:+ ", StatusCode: " +:+ fmt_d statusCode
  +:+ ", Error: " +:+ Error e +:+ LF.

(** The status code and the error a retried attempt is logged with: the
    sentinel -1 and the timeout error, or the status judged and the
    transport's error or the registered reason; [None] for an attempt that
    is not retried. *)
Definition logged (reg : gmap Z string) (attempt : Z) (r : RaceResult)
  : option (Z * error) :=
  match r with
  | TimerFired =>
    Some (-1, fmt_Errorf ("request timeout attempt(" +:+ fmt_d attempt +:+ ")"))
  | Done response (Some e) => Some (status_of response, e)
  | Done response None =>
    match reg !! status_of response with
    | Some reason => Some (status_of response, errors_New reason)
    | None => None
    end
  end.

(** Calling the backoff policy of a transport: [None] when the function
    value is nil or the call panics. *)
Definition call_policy (rt : retriableTransport) (attempt : Z) : option Duration :=
  match backoffPolicy rt with
  | Some policy => policy attempt
  | None => None
  end.

(** The events of one attempt of a call that goes on or returns: the
    attempt itself; for a retried attempt the debug line, if the debug
    flag is set; and for a retried attempt that completed before its
    timer the backoff call followed by the sleep. *)
Definition attempt_events (rt : retriableTransport) (reg : gmap Z string)
    (ar : Z * RaceResult) : list Event :=
  EvAttempt ar.1 ar.2 ::
  match logged reg ar.1 ar.2 with
  | None => []
  | Some (statusCode, e) =>
    (if debugMode rt then [EvLog (debug_line ar.1 statusCode e)] else []) ++
    match ar.2 with
    | TimerFired => []
    | Done _ _ =>
      match call_policy rt ar.1 with
      | Some d => [EvBackoff ar.1; EvSleep d]
      | None => []
      end
    end
  end.

(** A call of one of the package's ten option constructors. *)
Inductive OptionCall : Type :=
| CallWithMaxRetry (maxRetry : Z)
| CallWithDebugMode (isDebug : bool)
| CallWithInsecure (insecure : bool)
| CallWithIdleConnTimeout (timeout : Duration)
| CallWithTLSHandshakeTimeout (timeout : Duration)
| CallWithExpectContinueTimeout (timeout : Duration)
| CallWithResponseHeaderTimeout (timeout : Duration)
| CallWithRequestTimeout (timeout : Duration)
| CallWithMaxIdleConns (maxIdleConns : Z)
| CallWithBackoffPolicy (policy : option (Z -> option Duration)).

(** The option a call returns. *)
Definition option_of (c : OptionCall) : HTTPOption :=
  match c with
  | CallWithMaxRetry maxRetry => WithMaxRetry maxRetry
  | CallWithDebugMode isDebug => WithDebugMode isDebug
  | CallWithInsecure insecure => WithInsecure insecure
  | CallWithIdleConnTimeout timeout => WithIdleConnTimeout timeout
  | CallWithTLSHandshakeTimeout timeout => WithTLSHandshakeTimeout timeout
  | CallWithExpectContinueTimeout timeout => WithExpectContinueTimeout timeout
  | CallWithResponseHeaderTimeout timeout => WithResponseHeaderTimeout timeout
  | CallWithRequestTimeout timeout => WithRequestTimeout timeout
  | CallWithMaxIdleConns maxIdleConns => WithMaxIdleConns maxIdleConns
  | CallWithBackoffPolicy policy => WithBackoffPolicy policy
  end.

(** The value the last call selected by [pick] gives, or [dflt] when no
    call is selected. *)
Definition last_or {A : Type} (dflt : A) (pick : OptionCall -> option A)
    (calls : list OptionCall) : A :=
  default dflt (last (omap pick calls)).

(** The value a call gives to each field of the settings, if it is a call
    of the option for that field. *)
Definition given_MaxRetry (c : OptionCall) : option Z :=
  match c with CallWithMaxRetry v => Some v | _ => None end.

Definition given_DebugMode (c : OptionCall) : option bool :=
  match c with CallWithDebugMode v => Some v | _ => None end.

Definition given_Insecure (c : OptionCall) : option bool :=
  match c with CallWithInsecure v => Some v | _ => None end.

Definition given_MaxIdleConns (c : OptionCall) : option Z :=
  match c with CallWithMaxIdleConns v => Some v | _ => None end.

Definition given_IdleConnTimeout (c : OptionCall) : option Duration :=
  match c with CallWithIdleConnTimeout v => Some v | _ => None end.

Definition given_TLSHandshakeTimeout (c : OptionCall) : option Duration :=
  match c with CallWithTLSHandshakeTimeout v => Some v | _ => None end.

Definition given_ExpectContinueTimeout (c : OptionCall) : option Duration :=
  match c with CallWithExpectContinueTimeout v => Some v | _ => None end.

Definition given_ResponseHeaderTimeout (c : OptionCall) : option Duration :=
  match c with CallWithResponseHeaderTimeout v => Some v | _ => None end.

Definition given_RequestTimeout (c : OptionCall) : option Duration :=
  match c with CallWithRequestTimeout v => Some v | _ => None end.

Definition given_BackoffPolicy (c : OptionCall)
  : option (option (Z -> option Duration)) :=
  match c with CallWithBackoffPolicy v => Some v | _ => None end.

(** The settings in which every field has the value of the last call of
    its option among [calls], or keeps the value it has in [s]. *)
Definition last_calls (s : Settings) (calls : list OptionCall) : Settings :=
  {| MaxRetry := last_or (MaxRetry s) given_MaxRetry calls;
     DebugMode := last_or (DebugMode s) given_DebugMode calls;
     Insecure := last_or (Insecure s) given_Insecure calls;
     MaxIdleConns := last_or (MaxIdleConns s) given_MaxIdleConns calls;
     IdleConnTimeout := last_or (IdleConnTimeout s) given_IdleConnTimeout calls;
     TLSHandshakeTimeout :=
       last_or (TLSHandshakeTimeout s) given_TLSHandshakeTimeout calls;
     ExpectContinueTimeout :=
       last_or (ExpectContinueTimeout s) given_ExpectContinueTimeout calls;
     ResponseHeaderTimeout :=
       last_or (ResponseHeaderTimeout s) given_ResponseHeaderTimeout calls;
     RequestTimeout := last_or (RequestTimeout s) given_RequestTimeout calls;
     BackoffPolicy := last_or (BackoffPolicy s) given_BackoffPolicy calls |}.

(** * Properties *)

(** ** Machine integers *)

Lemma wrap64_small (z : Z) : is_int64 z -> wrap64 z = z.
Proof.
  unfold is_int64, MinInt64, MaxInt64, wrap64. intros H.
  rewrite Z.mod_small; lia.
Qed.

Lemma int_add_1_small (z : Z) : MinInt64 <= z < MaxInt64 -> int_add z 1 = z + 1.
Proof.
  intros H. unfold int_add. apply wrap64_small.
  unfold is_int64. lia.
Qed.

Lemma int_add_1_MaxInt64 : int_add MaxInt64 1 = MinInt64.
Proof. reflexivity. Qed.

(** Once the loop condition and the budget check have both let an attempt
    through, the increment of [attempt] does not overflow. *)
Lemma in_budget_no_overflow (N attempt : Z) :
  N <= MaxInt64 -> 1 <= attempt -> attempt <= int_add N 1 -> attempt <= N ->
  int_add attempt 1 = attempt + 1 /\ attempt + 1 <= int_add N 1.
Proof.
  intros HN Ha Hcond Hle.
  assert (N < MaxInt64) as Hlt.
  { destruct (Z.eq_dec N MaxInt64) as [->|]; [|lia].
    rewrite int_add_1_MaxInt64 in Hcond. unfold MinInt64 in Hcond. lia. }
  unfold MinInt64, MaxInt64 in *.
  rewrite !int_add_1_small; unfold MinInt64, MaxInt64; lia.
Qed.

(** With a budget that is non-negative and can be incremented, the loop
    condition holds on entry. *)
Lemma loop_entered (N : Z) : 0 <= N < MaxInt64 -> (1 <=? int_add N 1) = true.
Proof.
  intros H. rewrite int_add_1_small by (unfold MinInt64; lia).
  apply Z.leb_le. lia.
Qed.

(** ** Aggregated errors *)

Lemma multierr_Append_Some (left : option error) (e : error) :
  is_Some (multierr_Append left (Some e)).
Proof. destruct left; simpl; eauto. Qed.

Lemma multierr_Errors_Append (left : option error) (e : error) :
  is_multiError e = false ->
  multierr_Errors (multierr_Append left (Some e)) = multierr_Errors left ++ [e].
Proof.
  intros He. destruct left as [l|]; simpl.
  - destruct e; try discriminate; reflexivity.
  - destruct e; try discriminate; reflexivity.
Qed.

Lemma tagged_reason_single (reg : gmap Z string) (attempt : Z)
    (r : RaceResult) (reason : error) :
  tagged_reason reg attempt r = Some reason -> is_multiError reason = false.
Proof.
  destruct r as [|response [e|]]; simpl.
  - intros [= <-]. reflexivity.
  - intros [= <-]. reflexivity.
  - destruct (reg !! status_of response); [|discriminate].
    intros [= <-]. reflexivity.
Qed.

(** Every retried attempt has a tagged reason: a list of retried
    attempts has as many reasons as attempts. *)
Lemma tagged_reasons_length (reg : gmap Z string) (atts : list (Z * RaceResult)) :
  Forall (fun ar => retried reg ar.2 = true) atts ->
  length (tagged_reasons reg atts) = length atts.
Proof.
  induction 1 as [|[a r] atts Hr _ IH]; [reflexivity|].
  unfold tagged_reasons in *. simpl in *.
  destruct r as [|response [e|]]; simpl in *; try (f_equal; exact IH).
  destruct (reg !! status_of response); simpl.
  - f_equal. exact IH.
  - rewrite bool_decide_eq_false_2 in Hr by (intros [? ?]; discriminate).
    discriminate.
Qed.

(** ** Traces *)

Lemma attempts_emit {W} (ev : Event) (st : RunState W) :
  attempts (trace (emit ev st)) =
  attempts (trace st) ++ match ev with EvAttempt a r => [(a, r)] | _ => [] end.
Proof. unfold attempts, emit; simpl. rewrite omap_app. destruct ev; reflexivity. Qed.

Lemma backoff_calls_emit {W} (ev : Event) (st : RunState W) :
  backoff_calls (trace (emit ev st)) =
  backoff_calls (trace st) ++ match ev with EvBackoff a => [a] | _ => [] end.
Proof. unfold backoff_calls, emit; simpl. rewrite omap_app. destruct ev; reflexivity. Qed.

Lemma trace_set_world {W} (w : W) (st : RunState W) :
  trace (set_world w st) = trace st.
Proof. reflexivity. Qed.

Create Rewrite HintDb trace.
#[local] Hint Rewrite @attempts_emit @backoff_calls_emit @trace_set_world : trace.
#[local] Opaque emit.

Lemma transport_calls_attempts (tr : list Event) :
  transport_calls tr = List.map fst (attempts tr).
Proof.
  unfold transport_calls, attempts.
  induction tr as [|ev tr IH]; [reflexivity|].
  destruct ev; simpl; [f_equal|..]; exact IH.
Qed.

(** ** The retry decision and the loop body *)

Lemma shouldRetry_unfold (s : Store) (rt : retriableTransport)
    (statusCode : Z) (err : option error) :
  shouldRetry s rt statusCode err = decide_retry (registry s rt) statusCode err.
Proof.
  unfold shouldRetry, decide_retry, map_index, registry.
  destruct err; [reflexivity|].
  destruct (map_contents s (retryStatusCodes rt) !! statusCode); reflexivity.
Qed.

Lemma debugLog_Some {W} (rt : retriableTransport) (attempt statusCode : Z)
    (e : error) (st : RunState W) :
  exists st', debugLog rt attempt statusCode (Some e) st = Some st' /\
              world st' = world st /\
              attempts (trace st') = attempts (trace st) /\
              backoff_calls (trace st') = backoff_calls (trace st).
Proof.
  unfold debugLog. destruct (debugMode rt).
  - eexists; split; [reflexivity|].
    autorewrite with trace. rewrite !app_nil_r. auto.
  - eexists; split; [reflexivity|]. auto.
Qed.

Lemma RoundTrip_body_post {W} (env : Environment W) (s : Store)
    (rt : retriableTransport) (req : http_Request)
    (attempt : Z) (allErrors : option error) (st : RunState W) :
  body_post env s rt req attempt allErrors st
    (RoundTrip_body env s rt req attempt allErrors st).
Proof.
  unfold RoundTrip_body.
  destruct (ctx_Err env req (world st)) eqn:Hctx.
  { simpl. auto. }
  destruct (Z.ltb_spec (maxRetries rt) attempt) as [Hlt|Hle].
  { simpl. split; [reflexivity|]. right. auto. }
  destruct (race env req (requestTimeout rt) (world st)) as [r w] eqn:Hrace.
  set (st1 := emit (EvAttempt attempt r) (set_world w st)).
  assert (attempts (trace st1) = attempts (trace st) ++ [(attempt, r)]) as Hatt
    by (unfold st1; autorewrite with trace; reflexivity).
  assert (backoff_calls (trace st1) = backoff_calls (trace st)) as Hbo
    by (unfold st1; autorewrite with trace; rewrite app_nil_r; reflexivity).
  destruct r as [|response respErr].
  - (* the timer fired *)
    destruct (debugLog_Some rt attempt (-1)
                (fmt_Errorf ("request timeout attempt(" +:+ fmt_d attempt +:+ ")")) st1)
      as (st2 & -> & _ & Hatt2 & Hbo2).
    simpl. repeat split; try assumption.
    eexists TimerFired, _. simpl.
    rewrite Hatt2, Hbo2, Hatt, Hbo, app_nil_r. auto.
  - (* the underlying call completed *)
    fold (status_of response).
    rewrite shouldRetry_unfold. unfold decide_retry.
    assert (forall reason st2,
      attempts (trace st2) = attempts (trace st1) ->
      backoff_calls (trace st2) = backoff_calls (trace st1) ->
      tagged_reason (registry s rt) attempt (Done response respErr) = Some reason ->
      completed_retry (registry s rt) (Done response respErr) = true ->
      body_post env s rt req attempt allErrors st
        match backoffPolicy rt with
        | Some policy =>
          match policy attempt with
          | Some d =>
            Continue (multierr_Append allErrors (Some reason))
              (emit (EvSleep d)
                 (set_world (time_Sleep env d (world (emit (EvBackoff attempt) st2)))
                    (emit (EvBackoff attempt) st2)))
          | None => Panic (emit (EvBackoff attempt) st2)
          end
        | None => Panic st2
        end) as Hretry.
    { intros reason st2 Hatt2 Hbo2 Hreason Hcompleted.
      unfold policy_fails.
      destruct (backoffPolicy rt) as [policy|] eqn:Hpolicy.
      2:{ simpl. unfold policy_fails. rewrite Hpolicy.
          repeat split; try assumption.
          eexists. rewrite Hatt2. eassumption. }
      destruct (policy attempt) as [d|] eqn:Hd.
      2:{ simpl. unfold policy_fails. rewrite Hpolicy.
          repeat split; try assumption.
          eexists. autorewrite with trace. rewrite app_nil_r, Hatt2. eassumption. }
      simpl. repeat split; try assumption.
      eexists (Done response respErr), reason.
      autorewrite with trace. simpl in Hcompleted |- *.
      rewrite !app_nil_r, Hatt2, Hbo2, Hatt, Hbo, Hcompleted.
      repeat split; try assumption. }
    destruct respErr as [e|].
    + destruct (debugLog_Some rt attempt (status_of response) e st1)
        as (st2 & -> & _ & Hatt2 & Hbo2).
      apply Hretry; auto.
    + destruct (registry s rt !! status_of response) as [reason|] eqn:Hreg.
      * destruct (debugLog_Some rt attempt (status_of response) (errors_New reason) st1)
          as (st2 & -> & _ & Hatt2 & Hbo2).
        simpl errors_Wrapf.
        apply Hretry; auto; simpl; rewrite Hreg; auto.
      * simpl. rewrite Hreg.
        rewrite bool_decide_eq_false_2 by (intros [? ?]; discriminate).
        auto 10.
Qed.

(** ** The loop *)

Lemma RoundTrip_loop_post {W} (env : Environment W) (s : Store)
    (rt : retriableTransport) (req : http_Request) (fuel : nat) :
  is_int64 (maxRetries rt) ->
  forall attempt allErrors st,
    1 <= attempt ->
    loop_post s rt fuel attempt allErrors st
      (RoundTrip_loop env s rt req fuel attempt allErrors st).
Proof.
  unfold loop_post. intros HN.
  induction fuel as [|fuel IH]; intros attempt allErrors st Ha.
  { exists []. simpl. rewrite app_nil_r. repeat split; lia. }
  simpl RoundTrip_loop.
  destruct (Z.leb_spec attempt (int_add (maxRetries rt) 1)) as [Hcond|Hcond].
  2:{ exists []. simpl. rewrite !app_nil_r. repeat split; try lia.
      right. auto. }
  pose proof (RoundTrip_body_post env s rt req attempt allErrors st) as Hbody.
  destruct (RoundTrip_body env s rt req attempt allErrors st)
    as [allErrors1 st1|allErrors1 st1|response err st1|st1]; simpl in Hbody.
  - (* continue *)
    destruct Hbody as (Hctx & Hle & r & reason & Hatt & Hbo & Hreason & Hretried & ->).
    destruct (in_budget_no_overflow _ attempt (proj2 HN) Ha Hcond Hle)
      as [Hinc Hnext].
    rewrite Hinc.
    destruct (IH (attempt + 1) (multierr_Append allErrors (Some reason)) st1
                ltac:(lia)) as (atts & Hatts & Hnum & Hlen & Hres).
    exists ((attempt, r) :: atts).
    split; [rewrite Hatts, Hatt, <- app_assoc; reflexivity|].
    split; [simpl; rewrite Hnum; reflexivity|].
    split; [simpl length; lia|].
    destruct (RoundTrip_loop env s rt req fuel (attempt + 1)
                (multierr_Append allErrors (Some reason)) st1) as [ex st'].
    simpl in *. destruct ex as [response err| |].
    + destruct Hres as [Hbos Hres]. split.
      { rewrite Hbos, Hbo, <- app_assoc.
        destruct (completed_retry _ r); reflexivity. }
      left.
      destruct Hres as [[(-> & atts0 & a & -> & Hall & Hlast)
                        |(-> & Hall & terminal & Hterm & Herrs)]
                       |(_ & _ & _ & Hcontra)]; [| |lia].
      * left. split; [reflexivity|].
        exists ((attempt, r) :: atts0), a.
        repeat split; try assumption. constructor; assumption.
      * right. split; [reflexivity|].
        split; [constructor; assumption|].
        exists terminal. split; [assumption|].
        rewrite Herrs, multierr_Errors_Append
          by (eapply tagged_reason_single; eassumption).
        unfold tagged_reasons at 2. simpl. rewrite Hreason, <- app_assoc.
        reflexivity.
    + destruct Hres as (a & Hrange & Hfails). exists a. split; [lia|assumption].
    + lia.
  - (* break *)
    destruct Hbody as (-> & Hbody).
    exists []. simpl. rewrite !app_nil_r.
    repeat split; try lia.
    left. right. split; [reflexivity|]. split; [constructor|].
    destruct Hbody as [(Hctx & ->)|(Hctx & Hlt & ->)].
    + exists cancelled_reason. split; [auto|].
      apply multierr_Errors_Append. reflexivity.
    + exists exhausted_reason. split; [auto|].
      apply multierr_Errors_Append. reflexivity.
  - (* return *)
    destruct Hbody as (Hctx & Hle & -> & Hatt & Hbo & Hnot).
    exists [(attempt, Done response None)]. simpl.
    split; [assumption|]. split; [reflexivity|]. split; [lia|].
    split.
    { rewrite Hbo. simpl in Hnot. rewrite Hnot. simpl.
      rewrite app_nil_r. reflexivity. }
    left. left. split; [reflexivity|]. exists [], attempt. repeat split; auto.
  - (* panic *)
    destruct Hbody as (Hle & Hfails & r & Hatt).
    exists [(attempt, r)]. simpl. repeat split; auto; try lia.
    exists attempt. split; [lia|assumption].
Qed.

(** The whole call: the loop entered at attempt 1 with no error and an
    empty trace, with enough fuel. *)
Lemma RoundTrip_post {W} (env : Environment W) (s : Store)
    (rt : retriableTransport) (req : http_Request) (w : W) :
  is_int64 (maxRetries rt) ->
  exists atts,
    attempts (trace (RoundTrip env s rt req w).2) = atts /\
    List.map fst atts = count_from 1 (length atts) /\
    Z.of_nat (length atts) <= Z.max 0 (maxRetries rt) /\
    match (RoundTrip env s rt req w).1 with
    | Returned response err =>
      backoff_calls (trace (RoundTrip env s rt req w).2) =
        List.map fst
          (List.filter (fun ar => completed_retry (registry s rt) ar.2) atts) /\
      (returned_post (registry s rt) None atts response err \/
       (response = None /\ err = None /\ atts = [] /\
        ~ 0 <= maxRetries rt < MaxInt64))
    | Panicked => exists a, 1 <= a <= maxRetries rt /\ policy_fails rt a
    | OutOfFuel => False
    end.
Proof.
  intros HN. unfold RoundTrip.
  destruct (RoundTrip_loop_post env s rt req (S (Z.to_nat (maxRetries rt))) HN
              1 None {| world := w; trace := [] |} ltac:(lia))
    as (atts & Hatts & Hnum & Hlen & Hres).
  exists atts. split; [exact Hatts|]. split; [exact Hnum|].
  split; [lia|].
  destruct (RoundTrip_loop env s rt req (S (Z.to_nat (maxRetries rt))) 1 None
              {| world := w; trace := [] |}) as [ex st'].
  simpl in *. destruct ex as [response err| |].
  - destruct Hres as [Hbos Hres]. split; [exact Hbos|].
    destruct Hres as [Hres|(-> & -> & -> & Hcond)]; [left; exact Hres|].
    right. repeat split; try reflexivity.
    intros Hrange. pose proof (loop_entered _ Hrange) as Hent.
    apply Z.leb_le in Hent. lia.
  - exact Hres.
  - lia.
Qed.

(** The attempt numbers of any selection of consecutively numbered
    attempts are strictly increasing and lie in the numbered range. *)
Lemma selected_attempts_increasing (P : Z * RaceResult -> bool)
    (atts : list (Z * RaceResult)) (from : Z) :
  List.map fst atts = count_from from (length atts) ->
  StronglySorted Z.lt (List.map fst (List.filter P atts)) /\
  Forall (fun a => from <= a < from + Z.of_nat (length atts))
         (List.map fst (List.filter P atts)).
Proof.
  revert from. induction atts as [|[a r] atts IH]; intros from Hnum.
  { simpl. split; constructor. }
  simpl in Hnum. injection Hnum as -> Htail.
  destruct (IH _ Htail) as [Hsorted Hrange].
  assert (Forall (fun a => from < a < from + Z.of_nat (S (length atts)))
            (List.map fst (List.filter P atts))) as Hrange'.
  { eapply Forall_impl; [exact Hrange|]. intros a Ha. cbv beta in *. lia. }
  simpl List.filter. cbn [length].
  destruct (P (from, r)); simpl List.map.
  - split.
    + constructor; [assumption|].
      eapply Forall_impl; [exact Hrange'|]. intros a Ha. cbv beta in *. lia.
    + constructor; [lia|].
      eapply Forall_impl; [exact Hrange'|]. intros a Ha. cbv beta in *. lia.
  - split; [assumption|].
    eapply Forall_impl; [exact Hrange'|]. intros a Ha. cbv beta in *. lia.
Qed.

Lemma backoff_defined_no_panic (rt : retriableTransport) (a : Z) :
  backoff_defined rt -> 1 <= a <= maxRetries rt -> policy_fails rt a -> False.
Proof.
  intros Hdef Ha Hfails. destruct (Hdef a Ha) as (policy & d & Hp & Hd).
  unfold policy_fails in Hfails. rewrite Hp in Hfails. congruence.
Qed.

Lemma defaultBackoffPolicy_defined (attempt : Z) :
  0 <= attempt -> exists d, defaultBackoffPolicy attempt = Some d.
Proof.
  intros H. unfold defaultBackoffPolicy, int_shl.
  destruct (Z.ltb_spec attempt 0); [lia|].
  destruct (64 <=? attempt); eauto.
Qed.

Lemma demo_transport_backoff_defined (maxRetry : Z) :
  backoff_defined (demo_transport maxRetry).
Proof.
  intros attempt Ha. destruct (defaultBackoffPolicy_defined attempt) as [d Hd]; [lia|].
  exists defaultBackoffPolicy, d. split; [reflexivity|exact Hd].
Qed.

(** The demonstration transport and store are what the constructor builds. *)
Example newRetriableTransport_demo (maxRetry : Z) :
  newRetriableTransport (Some (NewHTTPSettings [WithMaxRetry maxRetry])) [] initial_store =
  Some (demo_transport maxRetry, NewHTTPSettings [WithMaxRetry maxRetry], demo_store).
Proof. reflexivity. Qed.

(** With a negative budget the loop body is never entered: the call
    returns nil and nil without any attempt. *)
Lemma RoundTrip_negative_budget {W} (env : Environment W) (s : Store)
    (rt : retriableTransport) (req : http_Request) (w : W) :
  MinInt64 <= maxRetries rt < 0 ->
  RoundTrip env s rt req w = (Returned None None, {| world := w; trace := [] |}).
Proof.
  intros HN. unfold RoundTrip. simpl RoundTrip_loop.
  rewrite int_add_1_small by (unfold MaxInt64; lia).
  destruct (Z.leb_spec 1 (maxRetries rt + 1)); [lia|reflexivity].
Qed.

(** With a budget the loop condition rejects at once (a negative
    [maxRetries], or the largest [int], whose successor wraps around),
    the loop body is never entered: the call returns nil and nil without
    any attempt. *)
Lemma RoundTrip_loop_not_entered {W} (env : Environment W) (s : Store)
    (rt : retriableTransport) (req : http_Request) (w : W) :
  is_int64 (maxRetries rt) ->
  ~ 0 <= maxRetries rt < MaxInt64 ->
  RoundTrip env s rt req w = (Returned None None, {| world := w; trace := [] |}).
Proof.
  intros [Hlo Hhi] Hout.
  destruct (Z_lt_le_dec (maxRetries rt) 0) as [Hneg|Hpos].
  - apply RoundTrip_negative_budget. lia.
  - assert (maxRetries rt = MaxInt64) as Hmax by lia.
    unfold RoundTrip. simpl RoundTrip_loop.
    destruct (Z.leb_spec 1 (int_add (maxRetries rt) 1)) as [Hcontra|_];
      [|reflexivity].
    rewrite Hmax, int_add_1_MaxInt64 in Hcontra. unfold MinInt64 in Hcontra. lia.
Qed.

(** ** The scenarios of the package's tests, run on the model *)

(** A server that answers 200: the response comes back with no error
    after one attempt and no backoff. *)
Example test_success :
  run_client (Some (NewHTTPSettings [WithDebugMode true; WithRequestTimeout (1 * Second);
                                     WithMaxRetry 3])) []
    (GET "http://example.test/") (script [respond StatusOK]) =
  Some (Returned (Some {| StatusCode := 200; Body := EmptyString |}) None, [1], []).
Proof. reflexivity. Qed.

(** A server slower than the request timeout: every attempt times out and
    the error text contains "max retries reached". *)
Example test_timeout :
  match run_client (Some (NewHTTPSettings [WithDebugMode true;
                                           WithRequestTimeout (1 * Second);
                                           WithMaxRetry 3])) []
          (GET "http://example.test/") (script []) with
  | Some (Returned None (Some err), calls, backoffs) =>
    Contains (Error err) "max retries reached" = true /\
    calls = [1; 2; 3] /\ backoffs = []
  | _ => False
  end.
Proof. vm_compute. repeat split. Qed.

(** A server that answers 503 twice and then 200: the third attempt's
    response comes back with no error. *)
Example test_retry_then_success :
  run_client (Some (NewHTTPSettings [WithDebugMode true; WithRequestTimeout (1 * Second);
                                     WithMaxRetry 3])) [StatusServiceUnavailable]
    (GET "http://example.test/")
    (script [respond 503; respond 503; respond StatusOK]) =
  Some (Returned (Some {| StatusCode := 200; Body := EmptyString |}) None,
        [1; 2; 3], [1; 2]).
Proof. reflexivity. Qed.

(** 404 registered at construction, and a server that always answers 404:
    no response, and the error text contains the status text of 404. *)
Example test_registered_status :
  match run_client (Some (NewHTTPSettings [WithDebugMode true;
                                           WithRequestTimeout (1 * Second);
                                           WithMaxRetry 3])) [StatusNotFound]
          (GET "http://example.test/")
          (script (repeat (respond StatusNotFound) 10)) with
  | Some (Returned None (Some err), _, _) =>
    Contains (Error err) (http_StatusText StatusNotFound) = true
  | _ => False
  end.
Proof. vm_compute. reflexivity. Qed.

(** A context that is already cancelled: the error text contains
    "cancelled from parent context". *)
Example test_parent_context_cancelled :
  match run_client (Some (NewHTTPSettings [WithDebugMode true;
                                           WithRequestTimeout (1 * Second);
                                           WithMaxRetry 3])) [StatusNotFound]
          (GET "http://example.test/")
          {| pending := [respond StatusOK]; cancelled := true; slept := 0 |} with
  | Some (Returned None (Some err), calls, _) =>
    Contains (Error err) "cancelled from parent context" = true /\ calls = []
  | _ => False
  end.
Proof. vm_compute. split; reflexivity. Qed.

(** ** The claims about the retry loop *)

(** One pass through the loop body when the attempt is within the budget
    and the underlying transport answers with a registered status. *)
Lemma RoundTrip_body_retryable {W} (env : Environment W) (s : Store)
    (rt : retriableTransport) (req : http_Request)
    (attempt : Z) (allErrors : option error) (st : RunState W)
    (resp : http_Response) (w' : W) (reason : string)
    (policy : Z -> option Duration) (d : Duration) :
  ctx_Err env req (world st) = false ->
  attempt <= maxRetries rt ->
  race env req (requestTimeout rt) (world st) = (Done (Some resp) None, w') ->
  registry s rt !! StatusCode resp = Some reason ->
  backoffPolicy rt = Some policy ->
  policy attempt = Some d ->
  exists st',
    RoundTrip_body env s rt req attempt allErrors st =
      Continue
        (multierr_Append allErrors
           (Some (withMessage (errors_New reason)
                    ("attempt(" +:+ fmt_d attempt +:+ ")")))) st' /\
    attempts (trace st') = attempts (trace st) ++ [(attempt, Done (Some resp) None)] /\
    backoff_calls (trace st') = backoff_calls (trace st) ++ [attempt].
Proof.
  intros Hctx Hle Hrace Hreg Hpolicy Hd.
  unfold RoundTrip_body. rewrite Hctx.
  destruct (Z.ltb_spec (maxRetries rt) attempt) as [Hlt|_]; [lia|].
  rewrite Hrace. unfold shouldRetry, map_index.
  fold (registry s rt). rewrite Hreg. simpl errors_Wrapf. cbv iota.
  destruct (debugLog_Some rt attempt (StatusCode resp) (errors_New reason)
              (emit (EvAttempt attempt (Done (Some resp) None)) (set_world w' st)))
    as (st2 & -> & _ & Hatt2 & Hbo2).
  rewrite Hpolicy, Hd.
  eexists. split; [reflexivity|].
  autorewrite with trace. rewrite Hatt2, Hbo2.
  autorewrite with trace. rewrite !app_nil_r. split; reflexivity.
Qed.

(** The loop against a transport that always answers with a registered
    status, under a context that is never cancelled: from [attempt] on,
    every attempt number up to [maxRetries] is tried once and followed by
    one backoff call, and the pass after the last one ends the call with
    the exhaustion reason. *)
Lemma RoundTrip_loop_always_retryable {W} (env : Environment W) (s : Store)
    (rt : retriableTransport) (req : http_Request) :
  (forall w, ctx_Err env req w = false) ->
  (forall w, exists resp w' reason,
     race env req (requestTimeout rt) w = (Done (Some resp) None, w') /\
     registry s rt !! StatusCode resp = Some reason) ->
  backoff_defined rt ->
  maxRetries rt < MaxInt64 ->
  forall (n : nat) (fuel : nat) (attempt : Z) (allErrors : option error)
         (st : RunState W),
    1 <= attempt ->
    attempt + Z.of_nat n = maxRetries rt + 1 ->
    (n < fuel)%nat ->
    exists err st',
      RoundTrip_loop env s rt req fuel attempt allErrors st =
        (Returned None (Some err), st') /\
      List.map fst (attempts (trace st')) =
        List.map fst (attempts (trace st)) ++ count_from attempt n /\
      backoff_calls (trace st') = backoff_calls (trace st) ++ count_from attempt n /\
      last (multierr_Errors (Some err)) = Some exhausted_reason /\
      length (multierr_Errors (Some err)) =
        (length (multierr_Errors allErrors) + n + 1)%nat.
Proof.
  intros Hctx Hrace Hdef HN.
  induction n as [|n IH]; intros fuel attempt allErrors st Ha Hsum Hfuel.
  - (* the pass after the last attempt *)
    destruct fuel as [|fuel]; [lia|]. simpl RoundTrip_loop.
    rewrite int_add_1_small by (unfold MinInt64; lia).
    destruct (Z.leb_spec attempt (maxRetries rt + 1)) as [_|Hcontra]; [|lia].
    unfold RoundTrip_body. rewrite Hctx.
    destruct (Z.ltb_spec (maxRetries rt) attempt) as [_|Hcontra]; [|lia].
    destruct (multierr_Append_Some allErrors exhausted_reason) as [err Herr].
    fold exhausted_reason. rewrite Herr.
    exists err, st. split; [reflexivity|].
    simpl count_from. rewrite !app_nil_r. split; [reflexivity|].
    split; [reflexivity|].
    rewrite <- Herr, multierr_Errors_Append by reflexivity.
    rewrite last_snoc, length_app. simpl. split; [reflexivity|lia].
  - (* an attempt within the budget *)
    destruct fuel as [|fuel]; [lia|]. simpl RoundTrip_loop.
    rewrite int_add_1_small by (unfold MinInt64; lia).
    destruct (Z.leb_spec attempt (maxRetries rt + 1)) as [_|Hcontra]; [|lia].
    destruct (Hrace (world st)) as (resp & w' & reason & Hr & Hreg).
    destruct (Hdef attempt ltac:(lia)) as (policy & d & Hpolicy & Hd).
    destruct (RoundTrip_body_retryable env s rt req attempt allErrors st
                resp w' reason policy d (Hctx _) ltac:(lia) Hr Hreg Hpolicy Hd)
      as (st1 & -> & Hatt & Hbo).
    rewrite int_add_1_small by (unfold MinInt64; lia).
    destruct (IH fuel (attempt + 1)
                (multierr_Append allErrors
                   (Some (withMessage (errors_New reason)
                            ("attempt(" +:+ fmt_d attempt +:+ ")")))) st1
                ltac:(lia) ltac:(lia) ltac:(lia))
      as (err & st' & -> & Hatts & Hbos & Hlast & Hlen).
    exists err, st'. split; [reflexivity|].
    split; [rewrite Hatts, Hatt, map_app, <- app_assoc; reflexivity|].
    split; [rewrite Hbos, Hbo, <- app_assoc; reflexivity|].
    split; [exact Hlast|].
    rewrite Hlen, multierr_Errors_Append by reflexivity.
    rewrite length_app. simpl. lia.
Qed.

(** For every budget [0 <= maxRetries] whose successor is representable,
    every backoff policy that answers the attempt numbers of the budget,
    and every environment whose context is never cancelled and whose
    underlying transport always answers with a registered status:
    [RoundTrip] invokes the underlying transport exactly [maxRetries]
    times, with attempt numbers 1 to [maxRetries], calls the backoff
    policy with the same numbers, and returns a nil response and an error
    that holds [maxRetries] reasons followed by "max retries reached". *)
Lemma RoundTrip_always_retryable {W} (env : Environment W) (s : Store)
    (rt : retriableTransport) (req : http_Request) (w : W) :
  (forall w, ctx_Err env req w = false) ->
  (forall w, exists resp w' reason,
     race env req (requestTimeout rt) w = (Done (Some resp) None, w') /\
     registry s rt !! StatusCode resp = Some reason) ->
  backoff_defined rt ->
  0 <= maxRetries rt < MaxInt64 ->
  exists err,
    (RoundTrip env s rt req w).1 = Returned None (Some err) /\
    transport_calls (trace (RoundTrip env s rt req w).2) =
      count_from 1 (Z.to_nat (maxRetries rt)) /\
    backoff_calls (trace (RoundTrip env s rt req w).2) =
      count_from 1 (Z.to_nat (maxRetries rt)) /\
    last (multierr_Errors (Some err)) = Some exhausted_reason /\
    length (multierr_Errors (Some err)) = S (Z.to_nat (maxRetries rt)).
Proof.
  intros Hctx Hrace Hdef HN. unfold RoundTrip.
  destruct (RoundTrip_loop_always_retryable env s rt req Hctx Hrace Hdef
              ltac:(lia) (Z.to_nat (maxRetries rt)) (S (Z.to_nat (maxRetries rt)))
              1 None {| world := w; trace := [] |}
              ltac:(lia) ltac:(lia) ltac:(lia))
    as (err & st' & -> & Hatts & Hbos & Hlast & Hlen).
  exists err. cbn [fst snd]. split; [reflexivity|].
  split; [rewrite transport_calls_attempts, Hatts; reflexivity|].
  split; [rewrite Hbos; reflexivity|].
  split; [exact Hlast|].
  rewrite Hlen. simpl. lia.
Qed.

(** C1 (evaluation at the claim's input).  With [maxRetries = 3] and an
    underlying transport that answers every attempt with the registered
    status 503, [RoundTrip] invokes the underlying transport three times,
    with attempt numbers 1, 2 and 3 (not four times): the fourth pass
    through the loop stops at the budget check before any invocation.  The
    returned error holds the three tagged reasons followed by
    "max retries reached", and its text contains that reason. *)
Theorem RoundTrip_maxRetries_3_always_retryable :
  run_client (Some (NewHTTPSettings [WithMaxRetry 3])) []
    (GET "http://example.test/")
    (script (repeat (respond StatusServiceUnavailable) 10)) =
  Some
    (Returned None
       (Some
          (multiError
             [withMessage (errors_New "서비스 사용 불가상태로 재시도") "attempt(1)";
              withMessage (errors_New "서비스 사용 불가상태로 재시도") "attempt(2)";
              withMessage (errors_New "서비스 사용 불가상태로 재시도") "attempt(3)";
              errors_New "max retries reached"])),
     [1; 2; 3], [1; 2; 3]) /\
  Contains
    (Error
       (multiError
          [withMessage (errors_New "서비스 사용 불가상태로 재시도") "attempt(1)";
           withMessage (errors_New "서비스 사용 불가상태로 재시도") "attempt(2)";
           withMessage (errors_New "서비스 사용 불가상태로 재시도") "attempt(3)";
           errors_New "max retries reached"]))
    "max retries reached" = true.
Proof. split; vm_compute; reflexivity. Qed.

(** C2.  For every non-negative [maxRetries = N] and every behaviour of
    the environment (context, underlying transport, clock), one call of
    [RoundTrip] invokes the underlying transport at most [N + 1] times,
    however the call ends. *)
Theorem RoundTrip_attempts_at_most_maxRetries_plus_1 {W} (env : Environment W)
    (s : Store) (rt : retriableTransport) (req : http_Request) (w : W) :
  0 <= maxRetries rt <= MaxInt64 ->
  Z.of_nat (length (transport_calls (trace (RoundTrip env s rt req w).2)))
  <= maxRetries rt + 1.
Proof.
  intros HN.
  destruct (RoundTrip_post env s rt req w) as (atts & Hatts & _ & Hlen & _).
  { unfold is_int64, MinInt64. lia. }
  rewrite transport_calls_attempts, Hatts, length_map. lia.
Qed.

(** C2 at budget 3 against a transport that answers 503, times out, then
    answers 200. *)
Lemma RoundTrip_attempts_at_most_maxRetries_plus_1_witness :
  0 <= maxRetries (demo_transport 3) <= MaxInt64 /\
  Z.of_nat
    (length
       (transport_calls
          (trace
             (RoundTrip scripted demo_store (demo_transport 3)
                (GET "http://example.test/")
                (script [respond 503; TimerFired; respond 200])).2)))
  <= maxRetries (demo_transport 3) + 1.
Proof.
  split.
  - vm_compute. split; discriminate.
  - apply RoundTrip_attempts_at_most_maxRetries_plus_1.
    vm_compute. split; discriminate.
Defined.

(** C3 (counterexample).  A request whose context is cancelled from the
    start, sent through a transport with a budget the loop is never
    entered for: [maxRetries = -1], and [maxRetries] the largest [int],
    whose successor wraps around to the smallest.  In both cases
    [RoundTrip] returns a nil response together with a nil error: no
    error indicates the cancellation. *)
Lemma RoundTrip_cancelled_without_error :
  ctx_Err scripted (GET "http://example.test/")
    {| pending := [respond 200]; cancelled := true; slept := 0 |} = true /\
  (RoundTrip scripted demo_store (demo_transport (-1))
     (GET "http://example.test/")
     {| pending := [respond 200]; cancelled := true; slept := 0 |}).1 =
    Returned None None /\
  (RoundTrip scripted demo_store (demo_transport MaxInt64)
     (GET "http://example.test/")
     {| pending := [respond 200]; cancelled := true; slept := 0 |}).1 =
    Returned None None.
Proof.
  split; [reflexivity|]. split.
  - rewrite RoundTrip_loop_not_entered; [reflexivity| |].
    + unfold is_int64, MinInt64, MaxInt64. simpl. lia.
    + simpl. lia.
  - rewrite RoundTrip_loop_not_entered; [reflexivity| |].
    + unfold is_int64, MinInt64, MaxInt64. simpl. lia.
    + unfold MaxInt64. simpl. lia.
Qed.

(** C3 (amended).  When the request context already reports an error at
    the call, [RoundTrip] never invokes the underlying transport,
    whatever the budget; and under a budget [0 <= maxRetries] whose
    successor is representable it returns a nil response with the error
    "cancelled from parent context". *)
Theorem RoundTrip_cancelled_before_first_attempt {W} (env : Environment W)
    (s : Store) (rt : retriableTransport) (req : http_Request) (w : W) :
  is_int64 (maxRetries rt) ->
  ctx_Err env req w = true ->
  transport_calls (trace (RoundTrip env s rt req w).2) = [] /\
  (0 <= maxRetries rt < MaxInt64 ->
   (RoundTrip env s rt req w).1 =
     Returned None (Some (errors_New "cancelled from parent context")) /\
   Contains (Error (errors_New "cancelled from parent context"))
     "cancelled from parent context" = true).
Proof.
  intros Hint Hctx.
  destruct (Z_le_dec 0 (maxRetries rt)) as [Hlo|Hlo];
    [destruct (Z_lt_dec (maxRetries rt) MaxInt64) as [Hhi|Hhi]|].
  - assert (0 <= maxRetries rt < MaxInt64) as HN by lia.
    unfold RoundTrip. simpl RoundTrip_loop.
    rewrite (loop_entered _ HN).
    unfold RoundTrip_body. simpl world. rewrite Hctx. simpl.
    repeat split.
  - rewrite RoundTrip_loop_not_entered by (assumption || lia).
    split; [reflexivity|]. intros HN. lia.
  - rewrite RoundTrip_loop_not_entered by (assumption || lia).
    split; [reflexivity|]. intros HN. lia.
Qed.

(** C3 (amended) at budget 3 with a context that is cancelled from the
    start. *)
Lemma RoundTrip_cancelled_before_first_attempt_witness :
  is_int64 (maxRetries (demo_transport 3)) /\
  0 <= maxRetries (demo_transport 3) < MaxInt64 /\
  ctx_Err scripted (GET "http://example.test/")
    {| pending := [respond 200]; cancelled := true; slept := 0 |} = true /\
  transport_calls
    (trace
       (RoundTrip scripted demo_store (demo_transport 3)
          (GET "http://example.test/")
          {| pending := [respond 200]; cancelled := true; slept := 0 |}).2) = [] /\
  (RoundTrip scripted demo_store (demo_transport 3)
     (GET "http://example.test/")
     {| pending := [respond 200]; cancelled := true; slept := 0 |}).1 =
    Returned None (Some (errors_New "cancelled from parent context")) /\
  Contains (Error (errors_New "cancelled from parent context"))
    "cancelled from parent context" = true.
Proof.
  assert (is_int64 (maxRetries (demo_transport 3))) as Hint
    by (unfold is_int64, MinInt64, MaxInt64; simpl; lia).
  assert (0 <= maxRetries (demo_transport 3) < MaxInt64) as HN
    by (unfold MaxInt64; simpl; lia).
  split; [exact Hint|]. split; [exact HN|]. split; [reflexivity|].
  destruct (RoundTrip_cancelled_before_first_attempt scripted demo_store
              (demo_transport 3) (GET "http://example.test/")
              {| pending := [respond 200]; cancelled := true; slept := 0 |}
              Hint eq_refl) as [Hcalls Herr].
  split; [exact Hcalls|]. exact (Herr HN).
Defined.

(** C4.  The retry decision: a present error gives [(true, err)]; with no
    error, a status code that is a key of the registry gives [true] with
    the registered text as the error, and any other status code gives
    [(false, nil)].  The decision is the function [decide_retry] of the registry
    contents and the two inputs alone; two transports with the same
    registry contents decide alike. *)
Theorem shouldRetry_decision (s : Store) (rt : retriableTransport)
    (statusCode : Z) (err : option error) :
  shouldRetry s rt statusCode err = decide_retry (registry s rt) statusCode err /\
  (forall e, shouldRetry s rt statusCode (Some e) = (true, Some e)) /\
  (forall reason,
     map_index s (retryStatusCodes rt) statusCode = Some reason ->
     shouldRetry s rt statusCode None = (true, Some (errors_New reason))) /\
  (map_index s (retryStatusCodes rt) statusCode = None ->
   shouldRetry s rt statusCode None = (false, None)) /\
  (forall s' rt',
     registry s' rt' = registry s rt ->
     shouldRetry s' rt' statusCode err = shouldRetry s rt statusCode err).
Proof.
  split; [apply shouldRetry_unfold|].
  split; [reflexivity|].
  split; [intros reason H; unfold shouldRetry; rewrite H; reflexivity|].
  split; [intros H; unfold shouldRetry; rewrite H; reflexivity|].
  intros s' rt' H. rewrite !shouldRetry_unfold, H. reflexivity.
Qed.

(** A call returns when the budget is representable and the backoff
    policy answers every attempt number of the budget; the model never
    runs out of fuel. *)
Lemma RoundTrip_returns {W} (env : Environment W)
    (s : Store) (rt : retriableTransport) (req : http_Request) (w : W) :
  is_int64 (maxRetries rt) ->
  (RoundTrip env s rt req w).1 <> OutOfFuel /\
  (backoff_defined rt ->
   exists response err, (RoundTrip env s rt req w).1 = Returned response err).
Proof.
  intros HN.
  destruct (RoundTrip_post env s rt req w HN) as (atts & _ & _ & _ & Hres).
  destruct ((RoundTrip env s rt req w).1) as [response err| |].
  - split; [discriminate|eauto].
  - split; [discriminate|]. intros Hdef.
    destruct Hres as (a & Ha & Hfails).
    destruct (backoff_defined_no_panic rt a Hdef Ha Hfails).
  - contradiction.
Qed.



(** C6 (evaluation at a failing input).  Budget 2; the first attempt
    ends by its timer, the second completes with the registered status
    503.  Both attempts are retried, so a backoff call after every retried
    attempt would give the sequence 1, 2; the policy is called once only,
    with attempt number 2: the retry after the timed-out attempt 1 is
    followed by no backoff call, and number 1 is skipped. *)
Theorem backoff_skips_timed_out_attempt :
  attempts
    (trace
       (RoundTrip scripted demo_store (demo_transport 2)
          (GET "http://example.test/")
          (script [TimerFired; respond 503])).2) =
    [(1, TimerFired); (2, respond 503)] /\
  List.map fst
    (List.filter (fun ar => retried (registry demo_store (demo_transport 2)) ar.2)
       (attempts
          (trace
             (RoundTrip scripted demo_store (demo_transport 2)
                (GET "http://example.test/")
                (script [TimerFired; respond 503])).2))) = [1; 2] /\
  backoff_calls
    (trace
       (RoundTrip scripted demo_store (demo_transport 2)
          (GET "http://example.test/")
          (script [TimerFired; respond 503])).2) = [2] /\
  ~ backoff_after_every_retry (registry demo_store (demo_transport 2))
      (trace
         (RoundTrip scripted demo_store (demo_transport 2)
            (GET "http://example.test/")
            (script [TimerFired; respond 503])).2).
Proof.
  split; [reflexivity|]. split; [reflexivity|]. split; [reflexivity|].
  unfold backoff_after_every_retry. vm_compute. discriminate.
Qed.

(** What the code does in general: when a call returns, the backoff
    policy has been called exactly once after each attempt that completed
    before its timer with a verdict to retry, with that attempt's number,
    in attempt order, and after no attempt that ended by its timer.  The
    numbers passed are strictly increasing and lie between 1 and
    [maxRetries]. *)
Lemma RoundTrip_backoff_calls {W} (env : Environment W)
    (s : Store) (rt : retriableTransport) (req : http_Request) (w : W)
    (response : option http_Response) (err : option error) :
  is_int64 (maxRetries rt) ->
  (RoundTrip env s rt req w).1 = Returned response err ->
  backoff_calls (trace (RoundTrip env s rt req w).2) =
    List.map fst
      (List.filter (fun ar => completed_retry (registry s rt) ar.2)
         (attempts (trace (RoundTrip env s rt req w).2))) /\
  StronglySorted Z.lt (backoff_calls (trace (RoundTrip env s rt req w).2)) /\
  Forall (fun a => 1 <= a <= maxRetries rt)
    (backoff_calls (trace (RoundTrip env s rt req w).2)).
Proof.
  intros HN Hexit.
  destruct (RoundTrip_post env s rt req w HN) as (atts & Hatts & Hnum & Hlen & Hres).
  rewrite Hatts. rewrite Hexit in Hres.
  destruct Hres as [Hbos _]. rewrite Hbos.
  destruct (selected_attempts_increasing
              (fun ar => completed_retry (registry s rt) ar.2) atts 1 Hnum)
    as [Hsorted Hrange].
  split; [reflexivity|]. split; [exact Hsorted|].
  eapply Forall_impl; [exact Hrange|]. intros a Ha. cbv beta in *. lia.
Qed.

(** C7 (counterexample).  Budget 2; the underlying transport answers the
    first attempt with the registered status 503 and completes the second
    with neither a response nor an error.  The sentinel status -1 is not
    registered, so the verdict for the second attempt is not to retry,
    and [RoundTrip] returns a nil response together with a nil error: the
    reason collected for attempt 1 is not returned.  And with the largest
    [int] as the budget, whose successor wraps around, the loop is not
    entered: against a transport that would answer 200, [RoundTrip]
    makes no attempt and returns a nil response together with a nil
    error. *)
Lemma RoundTrip_returns_nil_nil :
  attempts
    (trace
       (RoundTrip scripted demo_store (demo_transport 2)
          (GET "http://example.test/")
          (script [respond 503; Done None None])).2) =
    [(1, respond 503); (2, Done None None)] /\
  shouldRetry demo_store (demo_transport 2) (-1) None = (false, None) /\
  (RoundTrip scripted demo_store (demo_transport 2)
     (GET "http://example.test/")
     (script [respond 503; Done None None])).1 = Returned None None /\
  ~ response_xor_error
      (RoundTrip scripted demo_store (demo_transport 2)
         (GET "http://example.test/")
         (script [respond 503; Done None None])).1 /\
  RoundTrip scripted demo_store (demo_transport MaxInt64)
    (GET "http://example.test/") (script [respond 200]) =
    (Returned None None, {| world := script [respond 200]; trace := [] |}).
Proof.
  split; [reflexivity|]. split; [reflexivity|]. split; [reflexivity|].
  split.
  - vm_compute. intros [[[x Hx] _]|[_ [x Hx]]]; discriminate.
  - apply RoundTrip_loop_not_entered.
    + unfold is_int64, MinInt64, MaxInt64. simpl. lia.
    + unfold MaxInt64. simpl. lia.
Qed.

(** How a call that returns under a budget [0 <= maxRetries] whose
    successor is representable relates its two results to its attempts. *)
Lemma RoundTrip_returned_shape {W} (env : Environment W)
    (s : Store) (rt : retriableTransport) (req : http_Request) (w : W)
    (response : option http_Response) (err : option error) :
  0 <= maxRetries rt < MaxInt64 ->
  (RoundTrip env s rt req w).1 = Returned response err ->
  (forall a r,
     In (a, r) (attempts (trace (RoundTrip env s rt req w).2)) ->
     retried (registry s rt) r = false ->
     r = Done response None /\ err = None) /\
  ((err = None /\
    exists atts0 a,
      attempts (trace (RoundTrip env s rt req w).2) =
        atts0 ++ [(a, Done response None)] /\
      retried (registry s rt) (Done response None) = false) \/
   (response = None /\ is_Some err)) /\
  (response = None \/ err = None) /\
  (response = None -> err = None ->
   exists atts0 a,
     attempts (trace (RoundTrip env s rt req w).2) = atts0 ++ [(a, Done None None)]).
Proof.
  intros HN Hexit.
  destruct (RoundTrip_post env s rt req w) as (atts & Hatts & _ & _ & Hres).
  { unfold is_int64, MinInt64. lia. }
  rewrite Hatts. rewrite Hexit in Hres.
  destruct Hres as [_ [Hres|(_ & _ & _ & Hcontra)]]; [|contradiction].
  destruct Hres as [(-> & atts0 & a & -> & Hall & Hlast)
                   |(-> & Hall & terminal & Hterm & Herrs)].
  - split.
    { intros a' r Hin Hnot. apply in_app_or in Hin as [Hin|Hin].
      - rewrite Forall_forall in Hall.
        apply list_elem_of_In in Hin. specialize (Hall _ Hin). simpl in Hall.
        congruence.
      - destruct Hin as [[= <- <-]|[]]. auto. }
    split; [left; eauto 10|].
    split; [auto|].
    intros -> _. eauto.
  - assert (is_Some err) as Hsome.
    { destruct err as [e|]; [eauto|].
      simpl in Herrs. destruct (tagged_reasons (registry s rt) atts); discriminate. }
    split.
    { intros a r Hin Hnot. rewrite Forall_forall in Hall.
      apply list_elem_of_In in Hin. specialize (Hall _ Hin). simpl in Hall.
      congruence. }
    split; [right; auto|].
    split; [auto|].
    intros _ ->. destruct Hsome as [? [=]].
Qed.

(** C7 (amended).  Under a budget [0 <= maxRetries] whose successor is
    representable, [RoundTrip] returns whenever the backoff policy answers
    every attempt number of the budget, and whenever it returns: an
    attempt with a verdict not to retry is the last one, and the call
    returns that attempt's response, present or not, with a nil error;
    otherwise the call returns a nil response with a non-nil error.  So a
    response and an error are never both returned, and both are nil only
    when the last attempt completed with neither a response nor an
    error. *)
Theorem RoundTrip_response_or_error {W} (env : Environment W)
    (s : Store) (rt : retriableTransport) (req : http_Request) (w : W) :
  0 <= maxRetries rt < MaxInt64 ->
  (backoff_defined rt ->
   exists response err, (RoundTrip env s rt req w).1 = Returned response err) /\
  (forall response err,
     (RoundTrip env s rt req w).1 = Returned response err ->
     (forall a r,
        In (a, r) (attempts (trace (RoundTrip env s rt req w).2)) ->
        retried (registry s rt) r = false ->
        r = Done response None /\ err = None) /\
     ((err = None /\
       exists atts0 a,
         attempts (trace (RoundTrip env s rt req w).2) =
           atts0 ++ [(a, Done response None)] /\
         retried (registry s rt) (Done response None) = false) \/
      (response = None /\ is_Some err)) /\
     (response = None \/ err = None) /\
     (response = None -> err = None ->
      exists atts0 a,
        attempts (trace (RoundTrip env s rt req w).2) =
          atts0 ++ [(a, Done None None)])).
Proof.
  intros HN. split.
  - apply RoundTrip_returns. unfold is_int64, MinInt64. lia.
  - intros response err Hexit. apply RoundTrip_returned_shape; assumption.
Qed.

(** C7 (amended) at budget 2 against a transport that answers 503, then
    the unregistered 404: the call returns the 404 response and no
    error. *)
Lemma RoundTrip_response_or_error_witness :
  0 <= maxRetries (demo_transport 2) < MaxInt64 /\
  exists response err,
    (RoundTrip scripted demo_store (demo_transport 2)
       (GET "http://example.test/")
       (script [respond 503; respond 404])).1 = Returned response err /\
    response = Some {| StatusCode := 404; Body := EmptyString |} /\
    err = None.
Proof.
  split; [vm_compute; split; [discriminate|reflexivity]|].
  destruct (RoundTrip_response_or_error scripted demo_store (demo_transport 2)
              (GET "http://example.test/")
              (script [respond 503; respond 404]))
    as [Hreturns _].
  - vm_compute. split; [discriminate|reflexivity].
  - destruct (Hreturns (demo_transport_backoff_defined 2))
      as (response & err & Hexit).
    exists response, err. split; [exact Hexit|].
    vm_compute in Hexit. injection Hexit as <- <-. split; reflexivity.
Defined.

(** ** The registry *)

(** Inserting a list of entries with distinct keys, one after the other. *)
Lemma fold_insert_lookup (kvs : list (Z * string)) (m0 : gmap Z string) (k : Z) :
  NoDup kvs.*1 ->
  fold_left (fun m '(k, v) => <[k:=v]> m) kvs m0 !! k =
  match (list_to_map kvs : gmap Z string) !! k with
  | Some v => Some v
  | None => m0 !! k
  end.
Proof.
  revert m0. induction kvs as [|[k0 v0] kvs IH]; intros m0 Hnd.
  { simpl. rewrite lookup_empty. reflexivity. }
  simpl in Hnd. apply NoDup_cons in Hnd as [Hnotin Hnd].
  simpl fold_left. rewrite (IH _ Hnd). simpl list_to_map.
  destruct (decide (k0 = k)) as [->|Hne].
  - rewrite !lookup_insert_eq.
    rewrite (not_elem_of_list_to_map_1 _ _ Hnotin). reflexivity.
  - rewrite !lookup_insert_ne by assumption. reflexivity.
Qed.

(** Copying a map entry by entry, in whatever order [range] delivers the
    entries, gives a map with the same contents. *)
Lemma fold_insert_map_to_list (d : gmap Z string) :
  fold_left (fun m '(k, v) => <[k:=v]> m) (map_to_list d) ∅ = d.
Proof.
  apply map_eq. intros k.
  rewrite fold_insert_lookup by apply NoDup_fst_map_to_list.
  rewrite list_to_map_to_list, lookup_empty.
  destruct (d !! k); reflexivity.
Qed.

(** Adding the additional codes that are not present yet. *)
Lemma fold_add_lookup (additional : list Z) (m : gmap Z string) (code : Z) :
  fold_left
    (fun m c => match m !! c with
                | Some _ => m
                | None => <[c := http_StatusText c]> m
                end) additional m !! code =
  match m !! code with
  | Some v => Some v
  | None => if bool_decide (code ∈ additional) then Some (http_StatusText code) else None
  end.
Proof.
  revert m. induction additional as [|c rest IH]; intros m.
  { simpl. destruct (m !! code); reflexivity. }
  simpl fold_left. rewrite IH.
  destruct (m !! c) as [v|] eqn:Hc.
  - destruct (m !! code) as [v'|] eqn:Hcode; [reflexivity|].
    assert (code <> c) as Hne by congruence.
    rewrite (bool_decide_ext (code ∈ rest) (code ∈ c :: rest)); [reflexivity|].
    rewrite elem_of_cons. tauto.
  - destruct (decide (c = code)) as [->|Hne].
    + rewrite lookup_insert_eq, Hc.
      rewrite bool_decide_eq_true_2 by (apply elem_of_cons; auto). reflexivity.
    + rewrite lookup_insert_ne by assumption.
      destruct (m !! code); [reflexivity|].
      rewrite (bool_decide_ext (code ∈ rest) (code ∈ c :: rest)); [reflexivity|].
      rewrite elem_of_cons. split; [tauto|]. intros [Heq|Hin]; [congruence|exact Hin].
Qed.

(** The two loops of [extendDefault] write only the map they are given. *)
Lemma fold_map_assign (l : loc) (kvs : list (Z * string)) (st : Store)
    (m : gmap Z string) :
  maps st !! l = Some m ->
  fold_left (fun st '(code, msg) => map_assign l code msg st) kvs st =
  {| maps := <[l := fold_left (fun m '(k, v) => <[k:=v]> m) kvs m]> (maps st);
     transports := transports st |}.
Proof.
  revert st m. induction kvs as [|[k v] kvs IH]; intros st m Hl.
  { simpl. rewrite insert_id by assumption. destruct st; reflexivity. }
  simpl fold_left.
  rewrite (IH (map_assign l k v st) (<[k:=v]> m)).
  - unfold map_assign. simpl. rewrite insert_alter_eq. reflexivity.
  - unfold map_assign. simpl. rewrite lookup_alter_eq, Hl. reflexivity.
Qed.

Lemma fold_add_assign (l : loc) (additional : list Z) (st : Store)
    (m : gmap Z string) :
  maps st !! l = Some m ->
  fold_left
    (fun st code =>
       match map_index st l code with
       | Some _ => st
       | None => map_assign l code (http_StatusText code) st
       end) additional st =
  {| maps :=
       <[l := fold_left
                (fun m c => match m !! c with
                            | Some _ => m
                            | None => <[c := http_StatusText c]> m
                            end) additional m]> (maps st);
     transports := transports st |}.
Proof.
  revert st m. induction additional as [|c rest IH]; intros st m Hl.
  { simpl. rewrite insert_id by assumption. destruct st; reflexivity. }
  simpl fold_left.
  assert (map_index st l c = m !! c) as ->
    by (unfold map_index, map_contents; rewrite Hl; reflexivity).
  destruct (m !! c) as [v|] eqn:Hc.
  - apply IH. assumption.
  - rewrite (IH (map_assign l c (http_StatusText c) st) (<[c := http_StatusText c]> m)).
    + unfold map_assign. simpl. rewrite insert_alter_eq. reflexivity.
    + unfold map_assign. simpl. rewrite lookup_alter_eq, Hl. reflexivity.
Qed.

(** [extendDefault] in one step: a fresh location receives the default
    contents extended by the missing additional codes. *)
Lemma extendDefault_unfold (additional : list Z) (s : Store) :
  let l := fresh (dom (maps s)) in
  extendDefault additional s =
  (l,
   {| maps :=
        <[l := fold_left
                 (fun m c => match m !! c with
                             | Some _ => m
                             | None => <[c := http_StatusText c]> m
                             end) additional
                 (map_contents
                    {| maps := <[l := ∅]> (maps s); transports := transports s |}
                    defaultRetryStatusMap)]> (maps s);
      transports := transports s |}).
Proof.
  intros l. unfold extendDefault, make_map. fold l.
  set (s1 := {| maps := <[l := ∅]> (maps s); transports := transports s |}).
  rewrite (fold_map_assign l _ s1 ∅) by (unfold s1; simpl; apply lookup_insert_eq).
  rewrite fold_insert_map_to_list.
  erewrite fold_add_assign by (simpl; apply lookup_insert_eq).
  simpl. rewrite !insert_insert_eq. reflexivity.
Qed.

(** C8.  For every list of additional status codes and every store,
    [extendDefault] returns a reference to a map object that did not exist
    before; every map object that existed before, the default map among
    them, is left as it was (and so are the transports); the new map
    holds every entry of the default map and, for each additional code
    that is not a key of the default map, that code with
    [http.StatusText] of it, and nothing else; with no additional codes
    the new map is a copy of the default map. *)
Theorem extendDefault_spec (additional : list Z) (s : Store) :
  ((extendDefault additional s).1 ∉ dom (maps s)) /\
  (forall m, m ∈ dom (maps s) ->
     maps (extendDefault additional s).2 !! m = maps s !! m) /\
  transports (extendDefault additional s).2 = transports s /\
  (defaultRetryStatusMap ∈ dom (maps s) ->
   (extendDefault additional s).1 <> defaultRetryStatusMap /\
   map_contents (extendDefault additional s).2 defaultRetryStatusMap =
     map_contents s defaultRetryStatusMap) /\
  (forall code,
     map_contents (extendDefault additional s).2 (extendDefault additional s).1 !! code =
     match map_contents s defaultRetryStatusMap !! code with
     | Some msg => Some msg
     | None =>
       if bool_decide (code ∈ additional) then Some (http_StatusText code) else None
     end) /\
  map_contents (extendDefault [] s).2 (extendDefault [] s).1 =
    map_contents s defaultRetryStatusMap.
Proof.
  rewrite (extendDefault_unfold [] s), (extendDefault_unfold additional s).
  cbv zeta. simpl.
  pose proof (is_fresh (dom (maps s))) as Hfresh.
  set (l := fresh (dom (maps s))) in *.
  assert (map_contents {| maps := <[l := ∅]> (maps s); transports := transports s |}
            defaultRetryStatusMap = map_contents s defaultRetryStatusMap) as Hread.
  { unfold map_contents. simpl.
    destruct (Nat.eq_dec l defaultRetryStatusMap) as [Heq|Hne].
    - rewrite <- Heq, lookup_insert_eq.
      apply not_elem_of_dom in Hfresh. rewrite Hfresh. reflexivity.
    - rewrite lookup_insert_ne by assumption. reflexivity. }
  assert (forall (x : gmap Z string) (tr : gmap loc http_Transport),
            map_contents {| maps := <[l := x]> (maps s); transports := tr |} l = x)
    as Hnew.
  { intros x tr. unfold map_contents. simpl. rewrite lookup_insert_eq. reflexivity. }
  split; [exact Hfresh|].
  split.
  { intros m Hm. apply lookup_insert_ne. intros ->. contradiction. }
  split; [reflexivity|].
  split.
  { intros Hdef.
    assert (l <> defaultRetryStatusMap) as Hne
      by (intros Heq; rewrite Heq in Hfresh; contradiction).
    split; [exact Hne|].
    unfold map_contents. simpl. rewrite lookup_insert_ne by assumption.
    reflexivity. }
  split.
  - intros code. rewrite Hnew, fold_add_lookup, Hread. reflexivity.
  - rewrite Hnew. exact Hread.
Qed.

(** In the initial store, registering 404 gives a second map object with
    the four default entries and 404 with its status text; the default
    map still holds its four entries. *)
Example extendDefault_initial_404 :
  (extendDefault [StatusNotFound] initial_store).1 = 1%nat /\
  map_contents (extendDefault [StatusNotFound] initial_store).2 1%nat =
    <[StatusNotFound := "Not Found"]> defaultRetryStatusMap_literal /\
  map_contents (extendDefault [StatusNotFound] initial_store).2 defaultRetryStatusMap =
    defaultRetryStatusMap_literal /\
  size (map_contents (extendDefault [StatusNotFound] initial_store).2 1%nat) = 5%nat.
Proof. repeat split; reflexivity. Qed.

(** ** The constructor *)

(** The default policy doubles from one second while the product fits 64
    bits. *)
Lemma defaultBackoffPolicy_exponential (attempt : Z) :
  0 <= attempt <= 33 -> defaultBackoffPolicy attempt = Some (2 ^ attempt * Second).
Proof.
  intros H. unfold defaultBackoffPolicy, int_shl.
  destruct (Z.ltb_spec attempt 0); [lia|].
  destruct (Z.leb_spec 64 attempt); [lia|].
  rewrite Z.shiftl_1_l.
  assert (0 < 2 ^ attempt <= 2 ^ 33) as Hpow.
  { split; [apply Z.pow_pos_nonneg; lia|apply Z.pow_le_mono_r; lia]. }
  change (2 ^ 33) with 8589934592 in Hpow.
  rewrite (wrap64_small (2 ^ attempt))
    by (unfold is_int64, MinInt64, MaxInt64; lia).
  unfold int_mul. rewrite wrap64_small; [reflexivity|].
  unfold is_int64, MinInt64, MaxInt64, Second. lia.
Qed.

(** One step past that the product wraps around to a negative duration. *)
Example defaultBackoffPolicy_34 :
  defaultBackoffPolicy 34 = Some (-1266874889709551616).
Proof. reflexivity. Qed.

(** What a constructor call builds when [http.DefaultTransport] holds a
    transport. *)
Lemma newRetriableTransport_Some (settings : option Settings) (codes : list Z)
    (s : Store) (t0 : http_Transport) :
  transports s !! http_DefaultTransport = Some t0 ->
  exists rt st s',
    newRetriableTransport settings codes s = Some (rt, st, s') /\
    RoundTripper rt = http_DefaultTransport /\
    maxRetries rt = MaxRetry (effective settings) /\
    requestTimeout rt = RequestTimeout (effective settings) /\
    debugMode rt = DebugMode (effective settings) /\
    backoffPolicy rt =
      Some (default defaultBackoffPolicy (BackoffPolicy (effective settings))) /\
    st = match BackoffPolicy (effective settings) with
         | None => WithBackoffPolicy (Some defaultBackoffPolicy) (effective settings)
         | Some _ => effective settings
         end /\
    transports s' =
      <[http_DefaultTransport :=
          {| t_MaxIdleConns := MaxIdleConns (effective settings);
             t_IdleConnTimeout := IdleConnTimeout (effective settings);
             t_TLSHandshakeTimeout := TLSHandshakeTimeout (effective settings);
             t_ExpectContinueTimeout := ExpectContinueTimeout (effective settings);
             t_ResponseHeaderTimeout := ResponseHeaderTimeout (effective settings);
             ForceAttemptHTTP2 := ForceAttemptHTTP2 t0;
             TLSClientConfig :=
               Some {| MinVersion := VersionTLS12;
                       InsecureSkipVerify := Insecure (effective settings) |} |}]>
        (transports s).
Proof.
  intros Ht. unfold newRetriableTransport. fold (effective settings).
  rewrite Ht.
  match goal with
  | |- context [extendDefault codes ?x] =>
    pose proof (extendDefault_unfold codes x) as Hunf; cbv zeta in Hunf;
    rewrite Hunf
  end.
  destruct (BackoffPolicy (effective settings)) as [policy|] eqn:Hpolicy;
    destruct (Insecure (effective settings));
    (eexists _, _, _; split; [reflexivity|]; simpl; repeat split);
    exact Hpolicy.
Qed.

(** C9 (evaluation at the claim's input).  Built with nil settings in the
    initial store, the transport has [maxRetries = 3], a per-attempt
    timeout of 10 seconds and the default backoff policy, which gives
    [2 ^ attempt] seconds for attempts 0 to 33; but the settings it is
    built from have [Insecure = true], and the TLS configuration written
    to the default transport has [InsecureSkipVerify = true] (not false). *)
Theorem newRetriableTransport_nil_settings (retryStatusCodes : list Z) :
  exists rt settings s',
    newRetriableTransport None retryStatusCodes initial_store =
      Some (rt, settings, s') /\
    maxRetries rt = 3 /\
    requestTimeout rt = 10 * Second /\
    backoffPolicy rt = Some defaultBackoffPolicy /\
    (forall attempt, 0 <= attempt <= 33 ->
       defaultBackoffPolicy attempt = Some (2 ^ attempt * Second)) /\
    Insecure settings = true /\
    TLSClientConfig <$> transports s' !! RoundTripper rt =
      Some (Some {| MinVersion := VersionTLS12; InsecureSkipVerify := true |}).
Proof.
  destruct (newRetriableTransport_Some None retryStatusCodes initial_store
              http_DefaultTransport_initial eq_refl)
    as (rt & st & s' & Hbuilt & Hrt & Hmax & Htimeout & _ & Hpolicy & Hst & Htr).
  exists rt, st, s'. split; [exact Hbuilt|].
  split; [exact Hmax|]. split; [exact Htimeout|]. split; [exact Hpolicy|].
  split; [exact defaultBackoffPolicy_exponential|].
  split; [rewrite Hst; reflexivity|].
  rewrite Hrt, Htr, lookup_insert_eq. reflexivity.
Qed.

(** C10.  In a store where [http.DefaultTransport] holds a transport, two
    constructor calls in a row, with any settings and codes, both return
    a transport whose [RoundTripper] is the pointer held by
    [http.DefaultTransport]; no transport object is created; the object
    behind that pointer is written in place: after the first call its
    idle-connection, timeout and TLS fields are those of the first
    settings, after the second call those of the second settings (so the
    first client's transport now carries the second client's settings),
    and a field the constructor does not write keeps its value. *)
Theorem newRetriableTransport_shares_DefaultTransport
    (settings1 settings2 : option Settings) (codes1 codes2 : list Z)
    (s : Store) (t0 : http_Transport) :
  transports s !! http_DefaultTransport = Some t0 ->
  exists rt1 st1 s1 rt2 st2 s2,
    newRetriableTransport settings1 codes1 s = Some (rt1, st1, s1) /\
    newRetriableTransport settings2 codes2 s1 = Some (rt2, st2, s2) /\
    RoundTripper rt1 = http_DefaultTransport /\
    RoundTripper rt2 = RoundTripper rt1 /\
    dom (transports s1) = dom (transports s) /\
    dom (transports s2) = dom (transports s) /\
    transports s1 !! RoundTripper rt1 =
      Some {| t_MaxIdleConns := MaxIdleConns (effective settings1);
              t_IdleConnTimeout := IdleConnTimeout (effective settings1);
              t_TLSHandshakeTimeout := TLSHandshakeTimeout (effective settings1);
              t_ExpectContinueTimeout := ExpectContinueTimeout (effective settings1);
              t_ResponseHeaderTimeout := ResponseHeaderTimeout (effective settings1);
              ForceAttemptHTTP2 := ForceAttemptHTTP2 t0;
              TLSClientConfig :=
                Some {| MinVersion := VersionTLS12;
                        InsecureSkipVerify := Insecure (effective settings1) |} |} /\
    transports s2 !! RoundTripper rt1 =
      Some {| t_MaxIdleConns := MaxIdleConns (effective settings2);
              t_IdleConnTimeout := IdleConnTimeout (effective settings2);
              t_TLSHandshakeTimeout := TLSHandshakeTimeout (effective settings2);
              t_ExpectContinueTimeout := ExpectContinueTimeout (effective settings2);
              t_ResponseHeaderTimeout := ResponseHeaderTimeout (effective settings2);
              ForceAttemptHTTP2 := ForceAttemptHTTP2 t0;
              TLSClientConfig :=
                Some {| MinVersion := VersionTLS12;
                        InsecureSkipVerify := Insecure (effective settings2) |} |}.
Proof.
  intros Ht.
  destruct (newRetriableTransport_Some settings1 codes1 s t0 Ht)
    as (rt1 & st1 & s1 & Hbuilt1 & Hrt1 & _ & _ & _ & _ & _ & Htr1).
  assert (transports s1 !! http_DefaultTransport = Some
            {| t_MaxIdleConns := MaxIdleConns (effective settings1);
               t_IdleConnTimeout := IdleConnTimeout (effective settings1);
               t_TLSHandshakeTimeout := TLSHandshakeTimeout (effective settings1);
               t_ExpectContinueTimeout := ExpectContinueTimeout (effective settings1);
               t_ResponseHeaderTimeout := ResponseHeaderTimeout (effective settings1);
               ForceAttemptHTTP2 := ForceAttemptHTTP2 t0;
               TLSClientConfig :=
                 Some {| MinVersion := VersionTLS12;
                         InsecureSkipVerify := Insecure (effective settings1) |} |})
    as Ht1 by (rewrite Htr1; apply lookup_insert_eq).
  destruct (newRetriableTransport_Some settings2 codes2 s1 _ Ht1)
    as (rt2 & st2 & s2 & Hbuilt2 & Hrt2 & _ & _ & _ & _ & _ & Htr2).
  exists rt1, st1, s1, rt2, st2, s2.
  assert (dom (transports s1) = dom (transports s)) as Hdom1.
  { rewrite Htr1. apply dom_insert_lookup_L. eauto. }
  split; [exact Hbuilt1|]. split; [exact Hbuilt2|].
  split; [exact Hrt1|]. split; [congruence|].
  split; [exact Hdom1|].
  split.
  { rewrite Htr2, <- Hdom1. apply dom_insert_lookup_L. eauto. }
  rewrite Hrt1. split; [exact Ht1|].
  rewrite Htr2. apply lookup_insert_eq.
Qed.

(** C10 in the initial store: a client built with one idle connection,
    then a client built with nil settings; the first client's transport
    ends up with the 15 idle connections of the second. *)
Lemma newRetriableTransport_shares_DefaultTransport_witness :
  transports initial_store !! http_DefaultTransport = Some http_DefaultTransport_initial /\
  exists rt1 st1 s1 rt2 st2 s2,
    newRetriableTransport
      (Some (NewHTTPSettings [WithMaxIdleConns 1; WithInsecure false]))
      [] initial_store = Some (rt1, st1, s1) /\
    newRetriableTransport None [StatusNotFound] s1 = Some (rt2, st2, s2) /\
    RoundTripper rt2 = RoundTripper rt1 /\
    t_MaxIdleConns <$> transports s1 !! RoundTripper rt1 = Some 1 /\
    t_MaxIdleConns <$> transports s2 !! RoundTripper rt1 = Some 15.
Proof.
  split; [reflexivity|].
  destruct (newRetriableTransport_shares_DefaultTransport
              (Some (NewHTTPSettings [WithMaxIdleConns 1; WithInsecure false])) None
              [] [StatusNotFound] initial_store http_DefaultTransport_initial eq_refl)
    as (rt1 & st1 & s1 & rt2 & st2 & s2 & H1 & H2 & _ & Hsame & _ & _ & Ht1 & Ht2).
  exists rt1, st1, s1, rt2, st2, s2.
  split; [exact H1|]. split; [exact H2|]. split; [exact Hsame|].
  rewrite Ht1, Ht2. split; reflexivity.
Defined.

(** * Further properties *)

(** ** The events of a call *)

Lemma trace_emit {W} (ev : Event) (st : RunState W) :
  trace (emit ev st) = trace st ++ [ev].
Proof. reflexivity. Qed.

Lemma world_emit {W} (ev : Event) (st : RunState W) :
  world (emit ev st) = world st.
Proof. reflexivity. Qed.

Lemma attempts_app (tr1 tr2 : list Event) :
  attempts (tr1 ++ tr2) = attempts tr1 ++ attempts tr2.
Proof. apply omap_app. Qed.

Lemma backoff_calls_app (tr1 tr2 : list Event) :
  backoff_calls (tr1 ++ tr2) = backoff_calls tr1 ++ backoff_calls tr2.
Proof. apply omap_app. Qed.

Lemma sleeps_app (tr1 tr2 : list Event) :
  sleeps (tr1 ++ tr2) = sleeps tr1 ++ sleeps tr2.
Proof. apply omap_app. Qed.

Lemma log_lines_app (tr1 tr2 : list Event) :
  log_lines (tr1 ++ tr2) = log_lines tr1 ++ log_lines tr2.
Proof. apply omap_app. Qed.

(** What [debugLog] does to the state, for a non-nil error. *)
Lemma debugLog_trace {W} (rt : retriableTransport) (attempt statusCode : Z)
    (e : error) (st : RunState W) :
  exists st',
    debugLog rt attempt statusCode (Some e) st = Some st' /\
    world st' = world st /\
    trace st' =
      trace st ++
      (if debugMode rt then [EvLog (debug_line attempt statusCode e)] else []).
Proof.
  unfold debugLog. destruct (debugMode rt).
  - eexists. split; [reflexivity|]. split; reflexivity.
  - exists st. rewrite app_nil_r. auto.
Qed.

(** One pass through the loop body, event by event. *)
Lemma RoundTrip_body_trace {W} (env : Environment W) (s : Store)
    (rt : retriableTransport) (req : http_Request)
    (attempt : Z) (allErrors : option error) (st : RunState W) :
  match RoundTrip_body env s rt req attempt allErrors st with
  | Break _ st' =>
    st' = st /\
    (ctx_Err env req (world st) = true \/ maxRetries rt < attempt)
  | Continue _ st' =>
    ctx_Err env req (world st) = false /\ attempt <= maxRetries rt /\
    retried (registry s rt) (race env req (requestTimeout rt) (world st)).1 = true /\
    (completed_retry (registry s rt)
       (race env req (requestTimeout rt) (world st)).1 = true ->
     is_Some (call_policy rt attempt)) /\
    trace st' =
      trace st ++
      attempt_events rt (registry s rt)
        (attempt, (race env req (requestTimeout rt) (world st)).1) /\
    world st' =
      match (race env req (requestTimeout rt) (world st)).1, call_policy rt attempt with
      | Done _ _, Some d =>
        time_Sleep env d (race env req (requestTimeout rt) (world st)).2
      | _, _ => (race env req (requestTimeout rt) (world st)).2
      end
  | Return response err st' =>
    ctx_Err env req (world st) = false /\ attempt <= maxRetries rt /\
    err = None /\
    (race env req (requestTimeout rt) (world st)).1 = Done response None /\
    retried (registry s rt) (Done response None) = false /\
    trace st' =
      trace st ++ attempt_events rt (registry s rt) (attempt, Done response None) /\
    world st' = (race env req (requestTimeout rt) (world st)).2
  | Panic st' =>
    ctx_Err env req (world st) = false /\ attempt <= maxRetries rt /\
    call_policy rt attempt = None /\
    completed_retry (registry s rt)
      (race env req (requestTimeout rt) (world st)).1 = true
  end.
Proof.
  unfold RoundTrip_body.
  destruct (ctx_Err env req (world st)) eqn:Hctx; [simpl; auto|].
  destruct (Z.ltb_spec (maxRetries rt) attempt) as [Hlt|Hle]; [simpl; auto|].
  destruct (race env req (requestTimeout rt) (world st)) as [r w] eqn:Hrace.
  cbn [fst snd]. unfold attempt_events. cbn [fst snd].
  destruct r as [|response respErr].
  - (* the timer fired *)
    destruct (debugLog_trace rt attempt (-1)
                (fmt_Errorf ("request timeout attempt(" +:+ fmt_d attempt +:+ ")"))
                (emit (EvAttempt attempt TimerFired) (set_world w st)))
      as (st2 & -> & Hw & Htr).
    cbn [logged retried].
    rewrite Htr, Hw, trace_emit, world_emit, trace_set_world, app_nil_r,
      <- app_assoc.
    repeat split; try assumption. discriminate.
  - (* the underlying call completed *)
    fold (status_of response).
    rewrite shouldRetry_unfold. unfold decide_retry.
    destruct respErr as [e|];
      [|destruct (registry s rt !! status_of response) as [reason|] eqn:Hreg;
        [cbn [logged retried completed_retry]; rewrite Hreg;
         rewrite bool_decide_eq_true_2 by eauto|]].
    1,2: (cbn [errors_Wrapf logged retried completed_retry];
          match goal with
          | |- context [debugLog ?r0 ?a ?c (Some ?e0) ?st0] =>
            destruct (debugLog_trace r0 a c e0 st0) as (st2 & -> & Hw & Htr)
          end;
          unfold call_policy;
          destruct (backoffPolicy rt) as [policy|];
          [destruct (policy attempt) as [d|]|];
          repeat (rewrite trace_emit || rewrite world_emit
                  || rewrite trace_set_world || rewrite Htr || rewrite Hw);
          rewrite <- ?app_assoc;
          repeat split; eauto).
    cbn [logged retried completed_retry]. rewrite Hreg.
    rewrite bool_decide_eq_false_2 by (intros [? ?]; discriminate).
    rewrite trace_emit, world_emit, trace_set_world.
    repeat split; auto.
Qed.

Lemma attempts_attempt_events (rt : retriableTransport) (reg : gmap Z string)
    (ar : Z * RaceResult) :
  attempts (attempt_events rt reg ar) = [ar].
Proof.
  destruct ar as [a r]. unfold attempt_events. cbn [fst snd].
  destruct (logged reg a r) as [[c e]|]; [|reflexivity].
  destruct (debugMode rt), r as [|response respErr];
    try destruct (call_policy rt a); reflexivity.
Qed.

Lemma attempts_flat_map_attempt_events (rt : retriableTransport)
    (reg : gmap Z string) (atts : list (Z * RaceResult)) :
  attempts (flat_map (attempt_events rt reg) atts) = atts.
Proof.
  induction atts as [|ar atts IH]; [reflexivity|].
  cbn [flat_map]. rewrite attempts_app, attempts_attempt_events, IH. reflexivity.
Qed.

(** The loop, event by event: when it returns, what it added to the trace
    is the events of its attempts, one attempt after the other, and the
    backoff policy answered after every attempt that completed with a
    verdict to retry. *)
Lemma RoundTrip_loop_trace {W} (env : Environment W) (s : Store)
    (rt : retriableTransport) (req : http_Request) (fuel : nat) :
  forall attempt allErrors st response err st',
    RoundTrip_loop env s rt req fuel attempt allErrors st =
      (Returned response err, st') ->
    exists atts,
      trace st' = trace st ++ flat_map (attempt_events rt (registry s rt)) atts /\
      Forall (fun ar => completed_retry (registry s rt) ar.2 = true ->
                        is_Some (call_policy rt ar.1)) atts.
Proof.
  induction fuel as [|fuel IH]; intros attempt allErrors st response err st' Hrun.
  { discriminate. }
  simpl RoundTrip_loop in Hrun.
  destruct (attempt <=? int_add (maxRetries rt) 1).
  2:{ injection Hrun as _ _ <-. exists []. rewrite app_nil_r. auto. }
  pose proof (RoundTrip_body_trace env s rt req attempt allErrors st) as Hbody.
  destruct (RoundTrip_body env s rt req attempt allErrors st)
    as [allErrors1 st1|allErrors1 st1|response1 err1 st1|st1].
  - destruct Hbody as (_ & _ & _ & Hpolicy & Htr & _).
    destruct (IH _ _ _ _ _ _ Hrun) as (atts & Hatts & Hall).
    exists ((attempt, (race env req (requestTimeout rt) (world st)).1) :: atts).
    split; [|constructor; assumption].
    rewrite Hatts, Htr, <- app_assoc. reflexivity.
  - destruct Hbody as [-> _]. injection Hrun as _ _ <-.
    exists []. rewrite app_nil_r. auto.
  - destruct Hbody as (_ & _ & _ & _ & Hnot & Htr & _).
    injection Hrun as <- _ <-.
    exists [(attempt, Done response1 None)]. split.
    + cbn [flat_map]. rewrite app_nil_r. exact Htr.
    + constructor; [|constructor]. cbn [fst snd]. intros Hcompleted.
      cbn [retried] in Hnot. congruence.
  - discriminate.
Qed.

(** The same for a whole call, with the attempts read off the trace. *)
Lemma RoundTrip_trace_attempts {W} (env : Environment W) (s : Store)
    (rt : retriableTransport) (req : http_Request) (w : W)
    (response : option http_Response) (err : option error) :
  (RoundTrip env s rt req w).1 = Returned response err ->
  trace (RoundTrip env s rt req w).2 =
    flat_map (attempt_events rt (registry s rt))
      (attempts (trace (RoundTrip env s rt req w).2)) /\
  Forall (fun ar => completed_retry (registry s rt) ar.2 = true ->
                    is_Some (call_policy rt ar.1))
    (attempts (trace (RoundTrip env s rt req w).2)).
Proof.
  unfold RoundTrip. intros Hexit.
  destruct (RoundTrip_loop env s rt req (S (Z.to_nat (maxRetries rt))) 1 None
              {| world := w; trace := [] |}) as [ex st'] eqn:Hrun.
  cbn [fst snd] in *. subst ex.
  destruct (RoundTrip_loop_trace env s rt req _ _ _ _ _ _ _ Hrun)
    as (atts & Htr & Hall).
  simpl in Htr. rewrite Htr, attempts_flat_map_attempt_events. auto.
Qed.

(** X1.  The events of a call that returns are exactly the events of its
    attempts, in attempt order and nothing else: each attempt is one
    invocation of the underlying transport; a retried attempt is followed
    by its debug line when the debug flag is set; a retried attempt that
    completed before its timer is then followed by one call of the
    backoff policy with its attempt number and, immediately after, the
    sleep of the duration that call returned.  An attempt that ended by
    its timer, and the attempt that ends the call, are followed by
    neither. *)
Theorem RoundTrip_events_by_attempt {W} (env : Environment W) (s : Store)
    (rt : retriableTransport) (req : http_Request) (w : W)
    (response : option http_Response) (err : option error) :
  (RoundTrip env s rt req w).1 = Returned response err ->
  trace (RoundTrip env s rt req w).2 =
    flat_map (attempt_events rt (registry s rt))
      (attempts (trace (RoundTrip env s rt req w).2)) /\
  Forall (fun ar => completed_retry (registry s rt) ar.2 = true ->
                    exists d, call_policy rt ar.1 = Some d)
    (attempts (trace (RoundTrip env s rt req w).2)).
Proof.
  intros Hexit.
  destruct (RoundTrip_trace_attempts env s rt req w response err Hexit)
    as [Htr Hall].
  split; [exact Htr|exact Hall].
Qed.

(** X1 on a call with the debug flag set, budget 3, against a transport
    that times out, answers 503 and then 200. *)
Lemma RoundTrip_events_by_attempt_witness :
  (RoundTrip scripted demo_store (with_debugMode true (demo_transport 3))
     (GET "http://example.test/")
     (script [TimerFired; respond 503; respond 200])).1 =
    Returned (Some {| StatusCode := 200; Body := EmptyString |}) None /\
  trace
    (RoundTrip scripted demo_store (with_debugMode true (demo_transport 3))
       (GET "http://example.test/")
       (script [TimerFired; respond 503; respond 200])).2 =
    [EvAttempt 1 TimerFired;
     EvLog (debug_line 1 (-1) (fmt_Errorf "request timeout attempt(1)"));
     EvAttempt 2 (respond 503);
     EvLog (debug_line 2 503 (errors_New "서비스 사용 불가상태로 재시도"));
     EvBackoff 2;
     EvSleep (4 * Second);
     EvAttempt 3 (respond 200)].
Proof.
  split; [reflexivity|].
  destruct (RoundTrip_events_by_attempt scripted demo_store
              (with_debugMode true (demo_transport 3))
              (GET "http://example.test/")
              (script [TimerFired; respond 503; respond 200])
              (Some {| StatusCode := 200; Body := EmptyString |}) None eq_refl)
    as [Htr _].
  rewrite Htr. reflexivity.
Defined.

Lemma sleeps_attempt_events (rt : retriableTransport) (reg : gmap Z string)
    (ar : Z * RaceResult) :
  (completed_retry reg ar.2 = true -> is_Some (call_policy rt ar.1)) ->
  List.map Some (sleeps (attempt_events rt reg ar)) =
  List.map (call_policy rt) (backoff_calls (attempt_events rt reg ar)).
Proof.
  destruct ar as [a r]. unfold attempt_events. cbn [fst snd]. intros Hpolicy.
  destruct r as [|response [e|]]; cbn [logged completed_retry] in *.
  - destruct (debugMode rt); reflexivity.
  - destruct (Hpolicy eq_refl) as [d Hd]. rewrite Hd.
    destruct (debugMode rt); simpl; rewrite Hd; reflexivity.
  - destruct (reg !! status_of response) as [reason|]; [|reflexivity].
    destruct Hpolicy as [d Hd]; [apply bool_decide_eq_true_2; eauto|].
    rewrite Hd. destruct (debugMode rt); simpl; rewrite Hd; reflexivity.
Qed.

(** X2.  In a call that returns, [time.Sleep] is called exactly once for
    each call of the backoff policy, in the same order, with the duration
    that call returned; the loop sleeps at no other time. *)
Theorem RoundTrip_sleeps_backoff_delays {W} (env : Environment W) (s : Store)
    (rt : retriableTransport) (req : http_Request) (w : W)
    (response : option http_Response) (err : option error) :
  (RoundTrip env s rt req w).1 = Returned response err ->
  List.map Some (sleeps (trace (RoundTrip env s rt req w).2)) =
  List.map (call_policy rt) (backoff_calls (trace (RoundTrip env s rt req w).2)).
Proof.
  intros Hexit.
  destruct (RoundTrip_trace_attempts env s rt req w response err Hexit)
    as [Htr Hall].
  rewrite Htr. revert Hall.
  generalize (attempts (trace (RoundTrip env s rt req w).2)) as atts.
  intros atts Hall.
  induction Hall as [|ar atts Har _ IH]; [reflexivity|].
  cbn [flat_map].
  rewrite sleeps_app, backoff_calls_app, !map_app, IH.
  rewrite (sleeps_attempt_events rt (registry s rt) ar Har). reflexivity.
Qed.

(** X2 at budget 3 with the default policy, against a transport that
    answers 503, times out, answers 502 and then 200: the loop sleeps 2
    and 8 seconds, the delays of attempts 1 and 3. *)
Lemma RoundTrip_sleeps_backoff_delays_witness :
  (RoundTrip scripted demo_store (demo_transport 3)
     (GET "http://example.test/")
     (script [respond 503; TimerFired; respond 502])).1 =
    Returned None
      (Some (multiError
               [withMessage (errors_New "서비스 사용 불가상태로 재시도") "attempt(1)";
                fmt_Errorf "request timeout attempt(2)";
                withMessage (errors_New "게이트웨이 오류로 재시도") "attempt(3)";
                errors_New "max retries reached"])) /\
  List.map Some
    (sleeps
       (trace
          (RoundTrip scripted demo_store (demo_transport 3)
             (GET "http://example.test/")
             (script [respond 503; TimerFired; respond 502])).2)) =
    [Some (2 * Second); Some (8 * Second)].
Proof.
  split; [reflexivity|].
  rewrite (RoundTrip_sleeps_backoff_delays scripted demo_store (demo_transport 3)
             (GET "http://example.test/")
             (script [respond 503; TimerFired; respond 502]) _ _ eq_refl).
  reflexivity.
Defined.

Lemma log_lines_attempt_events (rt : retriableTransport) (reg : gmap Z string)
    (ar : Z * RaceResult) :
  log_lines (attempt_events rt reg ar) =
  if debugMode rt then
    match logged reg ar.1 ar.2 with
    | Some (statusCode, e) => [debug_line ar.1 statusCode e]
    | None => []
    end
  else [].
Proof.
  destruct ar as [a r]. unfold attempt_events. cbn [fst snd].
  destruct (logged reg a r) as [[c e]|]; [|destruct (debugMode rt); reflexivity].
  destruct (debugMode rt), r as [|response respErr];
    try destruct (call_policy rt a); reflexivity.
Qed.

(** X3.  The debug lines of a call that returns: with the debug flag
    cleared there are none; with the flag set there is exactly one line
    for each retried attempt, timed-out attempts included, in attempt
    order, holding the attempt number, the status code judged (-1 when
    there was no response) and the text of the timeout error, of the
    transport's error or of the registered reason; the attempt that ends
    the call, a cancellation and the exhaustion of the budget are not
    logged. *)
Theorem RoundTrip_debug_lines {W} (env : Environment W) (s : Store)
    (rt : retriableTransport) (req : http_Request) (w : W)
    (response : option http_Response) (err : option error) :
  (RoundTrip env s rt req w).1 = Returned response err ->
  log_lines (trace (RoundTrip env s rt req w).2) =
  if debugMode rt then
    flat_map
      (fun ar =>
         match logged (registry s rt) ar.1 ar.2 with
         | Some (statusCode, e) => [debug_line ar.1 statusCode e]
         | None => []
         end)
      (attempts (trace (RoundTrip env s rt req w).2))
  else [].
Proof.
  intros Hexit.
  destruct (RoundTrip_trace_attempts env s rt req w response err Hexit)
    as [Htr _].
  rewrite Htr at 1.
  generalize (attempts (trace (RoundTrip env s rt req w).2)) as atts.
  induction atts as [|ar atts IH].
  { destruct (debugMode rt); reflexivity. }
  cbn [flat_map]. rewrite log_lines_app, log_lines_attempt_events, IH.
  destruct (debugMode rt); reflexivity.
Qed.

(** X3 with the flag set, budget 3, against a transport that fails with
    an error, times out and then answers the unregistered 404: two
    lines. *)
Lemma RoundTrip_debug_lines_witness :
  (RoundTrip scripted demo_store (with_debugMode true (demo_transport 3))
     (GET "http://example.test/")
     (script [Done None (Some (errors_New "connection refused"));
              TimerFired; respond 404])).1 =
    Returned (Some {| StatusCode := 404; Body := EmptyString |}) None /\
  log_lines
    (trace
       (RoundTrip scripted demo_store (with_debugMode true (demo_transport 3))
          (GET "http://example.test/")
          (script [Done None (Some (errors_New "connection refused"));
                   TimerFired; respond 404])).2) =
    [debug_line 1 (-1) (errors_New "connection refused");
     debug_line 2 (-1) (fmt_Errorf "request timeout attempt(2)")].
Proof.
  split; [reflexivity|].
  rewrite (RoundTrip_debug_lines scripted demo_store
             (with_debugMode true (demo_transport 3))
             (GET "http://example.test/")
             (script [Done None (Some (errors_New "connection refused"));
                      TimerFired; respond 404]) _ _ eq_refl).
  reflexivity.
Defined.

(** ** The debug flag *)

Lemma strip_logs_app (tr1 tr2 : list Event) :
  strip_logs (tr1 ++ tr2) = strip_logs tr1 ++ strip_logs tr2.
Proof. apply List.filter_app. Qed.

Lemma same_but_logs_emit {W} (ev : Event) (st2 st1 : RunState W) :
  same_but_logs st2 st1 -> same_but_logs (emit ev st2) (emit ev st1).
Proof.
  intros [Hw Htr]. split; [exact Hw|].
  rewrite !trace_emit, !strip_logs_app, Htr. reflexivity.
Qed.

Lemma same_but_logs_set_world {W} (w : W) (st2 st1 : RunState W) :
  same_but_logs st2 st1 -> same_but_logs (set_world w st2) (set_world w st1).
Proof. intros [Hw Htr]. split; [reflexivity|exact Htr]. Qed.

Lemma same_but_logs_debugLog {W} (rt2 rt1 : retriableTransport)
    (attempt statusCode : Z) (e : error) (st2 st1 : RunState W) :
  same_but_logs st2 st1 ->
  exists st2' st1',
    debugLog rt2 attempt statusCode (Some e) st2 = Some st2' /\
    debugLog rt1 attempt statusCode (Some e) st1 = Some st1' /\
    same_but_logs st2' st1'.
Proof.
  intros [Hw Htr]. unfold debugLog.
  destruct (debugMode rt2), (debugMode rt1);
    (eexists _, _; split; [reflexivity|]; split; [reflexivity|]);
    (split; [exact Hw|]);
    rewrite ?trace_emit, ?strip_logs_app, ?app_nil_r; simpl; rewrite ?app_nil_r;
    exact Htr.
Qed.

(** One pass through the loop body does the same under either debug
    flag, debug lines apart. *)
Lemma RoundTrip_body_debugMode {W} (env : Environment W) (s : Store)
    (rt : retriableTransport) (req : http_Request) (b : bool)
    (attempt : Z) (allErrors : option error) (st2 st1 : RunState W) :
  same_but_logs st2 st1 ->
  flows_agree
    (RoundTrip_body env s (with_debugMode b rt) req attempt allErrors st2)
    (RoundTrip_body env s rt req attempt allErrors st1).
Proof.
  intros Hsame. pose proof Hsame as [Hw Htr].
  unfold RoundTrip_body. cbn [with_debugMode maxRetries requestTimeout backoffPolicy].
  rewrite Hw.
  destruct (ctx_Err env req (world st1)); [simpl; auto|].
  destruct (maxRetries rt <? attempt); [simpl; auto|].
  destruct (race env req (requestTimeout rt) (world st1)) as [r w].
  assert (same_but_logs (emit (EvAttempt attempt r) (set_world w st2))
            (emit (EvAttempt attempt r) (set_world w st1))) as Hsame1
    by (apply same_but_logs_emit, same_but_logs_set_world; exact Hsame).
  destruct r as [|response respErr].
  - destruct (same_but_logs_debugLog (with_debugMode b rt) rt attempt (-1)
                (fmt_Errorf ("request timeout attempt(" +:+ fmt_d attempt +:+ ")"))
                _ _ Hsame1) as (st2' & st1' & -> & -> & Hsame2).
    simpl. auto.
  - change (shouldRetry s (with_debugMode b rt)) with (shouldRetry s rt).
    destruct (shouldRetry s rt
                match response with
                | Some resp => StatusCode resp
                | None => -1
                end respErr) as [retry retryErr] eqn:Hverdict.
    destruct retry; [|simpl; auto].
    assert (exists e, retryErr = Some e) as [e ->].
    { rewrite shouldRetry_unfold in Hverdict. unfold decide_retry in Hverdict.
      destruct respErr; [injection Hverdict as <-; eauto|].
      destruct (registry s rt !! _); [injection Hverdict as <-; eauto|discriminate]. }
    match goal with
    | |- context [debugLog rt ?a ?c (Some e) ?st0] =>
      destruct (same_but_logs_debugLog (with_debugMode b rt) rt a c e _ _ Hsame1)
        as (st2' & st1' & -> & -> & Hsame2)
    end.
    destruct (backoffPolicy rt) as [policy|]; [|simpl; auto].
    pose proof (same_but_logs_emit (EvBackoff attempt) _ _ Hsame2) as Hsame3.
    destruct (policy attempt) as [d|]; [|simpl; auto].
    simpl. split; [reflexivity|].
    apply same_but_logs_emit. rewrite !world_emit.
    destruct Hsame2 as [-> _]. apply same_but_logs_set_world. exact Hsame3.
Qed.

(** The loop does the same under either debug flag, debug lines apart. *)
Lemma RoundTrip_loop_debugMode {W} (env : Environment W) (s : Store)
    (rt : retriableTransport) (req : http_Request) (b : bool) (fuel : nat) :
  forall attempt allErrors st2 st1,
    same_but_logs st2 st1 ->
    (RoundTrip_loop env s (with_debugMode b rt) req fuel attempt allErrors st2).1 =
      (RoundTrip_loop env s rt req fuel attempt allErrors st1).1 /\
    same_but_logs
      (RoundTrip_loop env s (with_debugMode b rt) req fuel attempt allErrors st2).2
      (RoundTrip_loop env s rt req fuel attempt allErrors st1).2.
Proof.
  induction fuel as [|fuel IH]; intros attempt allErrors st2 st1 Hsame.
  { simpl. auto. }
  simpl RoundTrip_loop. cbn [with_debugMode maxRetries].
  destruct (attempt <=? int_add (maxRetries rt) 1); [|simpl; auto].
  pose proof (RoundTrip_body_debugMode env s rt req b attempt allErrors st2 st1 Hsame)
    as Hflows.
  destruct (RoundTrip_body env s (with_debugMode b rt) req attempt allErrors st2)
    as [a2 s2|a2 s2|r2 e2 s2|s2],
    (RoundTrip_body env s rt req attempt allErrors st1)
    as [a1 s1|a1 s1|r1 e1 s1|s1]; simpl in Hflows; try contradiction.
  - destruct Hflows as [-> Hsame']. apply IH. exact Hsame'.
  - destruct Hflows as [-> Hsame']. simpl. auto.
  - destruct Hflows as (-> & -> & Hsame'). simpl. auto.
  - simpl. auto.
Qed.

Lemma RoundTrip_body_quiet {W} (env : Environment W) (s : Store)
    (rt : retriableTransport) (req : http_Request)
    (attempt : Z) (allErrors : option error) (st : RunState W) :
  debugMode rt = false ->
  log_lines (trace st) = [] ->
  log_lines (trace (flow_state (RoundTrip_body env s rt req attempt allErrors st))) = [].
Proof.
  intros Hoff Hquiet. unfold RoundTrip_body, debugLog. rewrite Hoff.
  destruct (ctx_Err env req (world st)); [exact Hquiet|].
  destruct (maxRetries rt <? attempt); [exact Hquiet|].
  destruct (race env req (requestTimeout rt) (world st)) as [r w].
  assert (log_lines (trace (emit (EvAttempt attempt r) (set_world w st))) = [])
    as Hquiet1.
  { rewrite trace_emit, trace_set_world, log_lines_app, Hquiet. reflexivity. }
  destruct r as [|response respErr]; [exact Hquiet1|].
  destruct (shouldRetry s rt _ respErr) as [[|] retryErr]; [|exact Hquiet1].
  destruct (backoffPolicy rt) as [policy|]; [|exact Hquiet1].
  destruct (policy attempt) as [d|]; cbn [flow_state];
    repeat (rewrite trace_emit || rewrite trace_set_world || rewrite log_lines_app);
    rewrite Hquiet; reflexivity.
Qed.

Lemma RoundTrip_loop_quiet {W} (env : Environment W) (s : Store)
    (rt : retriableTransport) (req : http_Request) (fuel : nat) :
  debugMode rt = false ->
  forall attempt allErrors st,
    log_lines (trace st) = [] ->
    log_lines (trace (RoundTrip_loop env s rt req fuel attempt allErrors st).2) = [].
Proof.
  intros Hoff. induction fuel as [|fuel IH]; intros attempt allErrors st Hquiet.
  { exact Hquiet. }
  simpl RoundTrip_loop.
  destruct (attempt <=? int_add (maxRetries rt) 1); [|exact Hquiet].
  pose proof (RoundTrip_body_quiet env s rt req attempt allErrors st Hoff Hquiet)
    as Hbody.
  destruct (RoundTrip_body env s rt req attempt allErrors st); simpl in Hbody |- *;
    auto.
Qed.

(** X4.  The debug flag changes nothing but the debug lines: for every
    environment, store, transport, request and initial world, a call
    with the flag set to any value ends the same way (the same response
    and error, or a panic), leaves the same world behind, and makes the
    same attempts, backoff calls and sleeps in the same order as the call
    with the transport's own flag; and with the flag off no debug line is
    written, however the call ends. *)
Theorem RoundTrip_debugMode_only_logs {W} (env : Environment W) (s : Store)
    (rt : retriableTransport) (req : http_Request) (w : W) (b : bool) :
  (RoundTrip env s (with_debugMode b rt) req w).1 = (RoundTrip env s rt req w).1 /\
  world (RoundTrip env s (with_debugMode b rt) req w).2 =
    world (RoundTrip env s rt req w).2 /\
  strip_logs (trace (RoundTrip env s (with_debugMode b rt) req w).2) =
    strip_logs (trace (RoundTrip env s rt req w).2) /\
  log_lines (trace (RoundTrip env s (with_debugMode false rt) req w).2) = [].
Proof.
  unfold RoundTrip. cbn [with_debugMode maxRetries].
  destruct (RoundTrip_loop_debugMode env s rt req b (S (Z.to_nat (maxRetries rt)))
              1 None {| world := w; trace := [] |} {| world := w; trace := [] |})
    as [Hexit [Hw Htr]].
  { split; reflexivity. }
  split; [exact Hexit|]. split; [exact Hw|]. split; [exact Htr|].
  apply RoundTrip_loop_quiet; reflexivity.
Qed.

(** ** How a call ends *)

(** The loop, entered within the budget: when it returns an error, the
    error ends with the cancellation reason and the context reports an
    error in the world the loop leaves, or it ends with the exhaustion
    reason, the context reports none, and the loop has made all the
    attempts left in the budget. *)
Lemma RoundTrip_loop_terminal {W} (env : Environment W) (s : Store)
    (rt : retriableTransport) (req : http_Request) (fuel : nat) :
  MinInt64 <= maxRetries rt < MaxInt64 ->
  forall attempt allErrors st response err st',
    1 <= attempt <= maxRetries rt + 1 ->
    RoundTrip_loop env s rt req fuel attempt allErrors st =
      (Returned response err, st') ->
    err = None \/
    (response = None /\
     last (multierr_Errors err) = Some cancelled_reason /\
     ctx_Err env req (world st') = true) \/
    (response = None /\
     last (multierr_Errors err) = Some exhausted_reason /\
     ctx_Err env req (world st') = false /\
     Z.of_nat (length (attempts (trace st'))) =
       Z.of_nat (length (attempts (trace st))) + (maxRetries rt + 1 - attempt)).
Proof.
  intros HN.
  induction fuel as [|fuel IH];
    intros attempt allErrors st response err st' Ha Hrun.
  { discriminate. }
  simpl RoundTrip_loop in Hrun.
  rewrite int_add_1_small in Hrun by exact HN.
  destruct (Z.leb_spec attempt (maxRetries rt + 1)) as [_|Hcontra]; [|lia].
  pose proof (RoundTrip_body_post env s rt req attempt allErrors st) as Hbody.
  destruct (RoundTrip_body env s rt req attempt allErrors st)
    as [allErrors1 st1|allErrors1 st1|response1 err1 st1|st1];
    cbn [body_post] in Hbody.
  - destruct Hbody as (_ & Hle & r & reason & Hatt & _).
    rewrite int_add_1_small in Hrun by (unfold MinInt64, MaxInt64 in *; lia).
    destruct (IH (attempt + 1) _ _ _ _ _ ltac:(lia) Hrun)
      as [Hnone|[Hcancelled|(Hresp & Hlast & Hctx & Hlen)]];
      [left; exact Hnone|right; left; exact Hcancelled|].
    right. right. repeat split; try assumption.
    rewrite Hlen, Hatt, length_app. simpl. lia.
  - destruct Hbody as [-> Hwhy]. injection Hrun as <- <- <-. right.
    destruct Hwhy as [[Hctx ->]|(Hctx & Hlt & ->)].
    + left. rewrite multierr_Errors_Append, last_snoc by reflexivity. auto.
    + right. rewrite multierr_Errors_Append, last_snoc by reflexivity.
      repeat split; try assumption. lia.
  - destruct Hbody as (_ & _ & -> & _). injection Hrun as _ <- _. left. reflexivity.
  - discriminate.
Qed.

(** What the loop adds to the attempts of the trace are results of the
    race of the underlying transport against the timer. *)
Lemma RoundTrip_loop_attempts_from_race {W} (env : Environment W) (s : Store)
    (rt : retriableTransport) (req : http_Request) (P : RaceResult -> Prop) :
  (forall w, P (race env req (requestTimeout rt) w).1) ->
  forall fuel attempt allErrors st,
    Forall (fun ar => P ar.2) (attempts (trace st)) ->
    Forall (fun ar => P ar.2)
      (attempts (trace (RoundTrip_loop env s rt req fuel attempt allErrors st).2)).
Proof.
  intros Hrace.
  assert (forall attempt allErrors st,
            Forall (fun ar => P ar.2) (attempts (trace st)) ->
            Forall (fun ar => P ar.2)
              (attempts
                 (trace (flow_state (RoundTrip_body env s rt req attempt allErrors st)))))
    as Hbody.
  { intros attempt allErrors st Hst. unfold RoundTrip_body.
    destruct (ctx_Err env req (world st)); [exact Hst|].
    destruct (maxRetries rt <? attempt); [exact Hst|].
    pose proof (Hrace (world st)) as Hr.
    destruct (race env req (requestTimeout rt) (world st)) as [r w].
    cbn [fst] in Hr.
    assert (Forall (fun ar => P ar.2)
              (attempts (trace (emit (EvAttempt attempt r) (set_world w st)))))
      as Hst1.
    { autorewrite with trace. apply Forall_app. split; [exact Hst|].
      constructor; [exact Hr|constructor]. }
    assert (forall c e,
              match debugLog rt attempt c (Some e)
                      (emit (EvAttempt attempt r) (set_world w st)) with
              | Some st2 => Forall (fun ar => P ar.2) (attempts (trace st2))
              | None => False
              end) as Hlog.
    { intros c e.
      destruct (debugLog_Some rt attempt c e
                  (emit (EvAttempt attempt r) (set_world w st)))
        as (st2 & -> & _ & -> & _). exact Hst1. }
    destruct r as [|response respErr].
    - specialize (Hlog (-1)
                    (fmt_Errorf ("request timeout attempt(" +:+ fmt_d attempt +:+ ")"))).
      destruct (debugLog rt attempt (-1) _ _); [exact Hlog|contradiction].
    - rewrite shouldRetry_unfold. unfold decide_retry.
      destruct respErr as [e|];
        [|destruct (registry s rt !! _) as [reason|]; [|exact Hst1]].
      all: cbn [errors_Wrapf];
        match goal with
        | |- context [debugLog ?r0 ?a ?c (Some ?e0) ?st0] =>
          specialize (Hlog c e0); destruct (debugLog r0 a c (Some e0) st0)
            as [st2|]; [|contradiction]
        end;
        destruct (backoffPolicy rt) as [policy|]; [|exact Hlog];
        destruct (policy attempt) as [d|]; cbn [flow_state];
        autorewrite with trace; rewrite ?app_nil_r; exact Hlog. }
  induction fuel as [|fuel IH]; intros attempt allErrors st Hst.
  { exact Hst. }
  simpl RoundTrip_loop.
  destruct (attempt <=? int_add (maxRetries rt) 1); [|exact Hst].
  specialize (Hbody attempt allErrors st Hst).
  destruct (RoundTrip_body env s rt req attempt allErrors st);
    cbn [flow_state] in Hbody; auto.
Qed.

(** A call that returns an error, in full. *)
Lemma RoundTrip_returned_error {W} (env : Environment W) (s : Store)
    (rt : retriableTransport) (req : http_Request) (w : W)
    (response : option http_Response) (e : error) :
  0 <= maxRetries rt < MaxInt64 ->
  (RoundTrip env s rt req w).1 = Returned response (Some e) ->
  response = None /\
  ((last (multierr_Errors (Some e)) = Some cancelled_reason /\
    ctx_Err env req (world (RoundTrip env s rt req w).2) = true) \/
   (last (multierr_Errors (Some e)) = Some exhausted_reason /\
    ctx_Err env req (world (RoundTrip env s rt req w).2) = false /\
    transport_calls (trace (RoundTrip env s rt req w).2) =
      count_from 1 (Z.to_nat (maxRetries rt)))).
Proof.
  intros HN Hexit.
  destruct (RoundTrip_post env s rt req w ltac:(unfold is_int64, MinInt64; lia))
    as (atts & Hatts & Hnum & _ & _).
  rewrite transport_calls_attempts, Hatts, Hnum.
  assert (length atts = length (attempts (trace (RoundTrip env s rt req w).2)))
    as Hlen by (rewrite Hatts; reflexivity).
  clear Hatts Hnum. revert Hexit Hlen. unfold RoundTrip.
  destruct (RoundTrip_loop env s rt req (S (Z.to_nat (maxRetries rt))) 1 None
              {| world := w; trace := [] |}) as [ex st'] eqn:Hrun.
  cbn [fst snd]. intros -> Hlen.
  destruct (RoundTrip_loop_terminal env s rt req _ ltac:(unfold MinInt64; lia)
              1 _ _ _ _ _ ltac:(lia) Hrun)
    as [Hnone|[(-> & Hlast & Hctx)|(-> & Hlast & Hctx & Hcount)]];
    [discriminate|auto|].
  split; [reflexivity|]. right. repeat split; try assumption.
  simpl in Hcount. f_equal. lia.
Qed.

(** X5.  What the last reason of a returned error tells, for a budget
    [0 <= maxRetries] whose successor is representable: a call that
    returns an error returns no response; the error ends either with
    "cancelled from parent context", and then the request context reports
    an error in the world the call leaves, or with "max retries reached",
    and then the context reports none and the underlying transport has
    been invoked exactly [maxRetries] times, with the attempt numbers 1 to
    [maxRetries]. *)
Theorem RoundTrip_terminal_reason {W} (env : Environment W) (s : Store)
    (rt : retriableTransport) (req : http_Request) (w : W)
    (response : option http_Response) (e : error) :
  0 <= maxRetries rt < MaxInt64 ->
  (RoundTrip env s rt req w).1 = Returned response (Some e) ->
  response = None /\
  ((last (multierr_Errors (Some e)) = Some cancelled_reason /\
    ctx_Err env req (world (RoundTrip env s rt req w).2) = true) \/
   (last (multierr_Errors (Some e)) = Some exhausted_reason /\
    ctx_Err env req (world (RoundTrip env s rt req w).2) = false /\
    transport_calls (trace (RoundTrip env s rt req w).2) =
      count_from 1 (Z.to_nat (maxRetries rt)))).
Proof. apply RoundTrip_returned_error. Qed.

(** X5 on a call with budget 2 whose two attempts end by the timer. *)
Lemma RoundTrip_terminal_reason_witness :
  0 <= maxRetries (demo_transport 2) < MaxInt64 /\
  (RoundTrip (steady TimerFired) demo_store (demo_transport 2)
     (GET "http://example.test/") 0%nat).1 =
    Returned None
      (Some (multiError [fmt_Errorf "request timeout attempt(1)";
                         fmt_Errorf "request timeout attempt(2)";
                         exhausted_reason])) /\
  transport_calls
    (trace (RoundTrip (steady TimerFired) demo_store (demo_transport 2)
              (GET "http://example.test/") 0%nat).2) = [1; 2].
Proof.
  assert (0 <= maxRetries (demo_transport 2) < MaxInt64) as HN
    by (unfold MaxInt64; simpl; lia).
  split; [exact HN|]. split; [reflexivity|].
  destruct (RoundTrip_terminal_reason (steady TimerFired) demo_store
              (demo_transport 2) (GET "http://example.test/") 0%nat None
              (multiError [fmt_Errorf "request timeout attempt(1)";
                           fmt_Errorf "request timeout attempt(2)";
                           exhausted_reason]) HN eq_refl)
    as [_ [[Hlast _]|(_ & _ & Hcalls)]]; [discriminate Hlast|exact Hcalls].
Defined.

(** X6.  A call none of whose attempts can succeed uses the whole budget
    and no more.  For a budget [0 <= maxRetries] whose successor is
    representable, a backoff policy that answers the attempt numbers of
    the budget, a context that is never cancelled, and an underlying
    transport every attempt on which is retried (it ends by the timer,
    fails, or answers with a registered status): [RoundTrip] invokes the
    underlying transport exactly [maxRetries] times, with the attempt
    numbers 1 to [maxRetries], and returns a nil response and an error
    that holds the tagged reason of each attempt, in order, followed by
    "max retries reached". *)
Theorem RoundTrip_all_retried {W} (env : Environment W) (s : Store)
    (rt : retriableTransport) (req : http_Request) (w : W) :
  0 <= maxRetries rt < MaxInt64 ->
  backoff_defined rt ->
  (forall w', ctx_Err env req w' = false) ->
  (forall w', retried (registry s rt) (race env req (requestTimeout rt) w').1 = true) ->
  exists err,
    (RoundTrip env s rt req w).1 = Returned None (Some err) /\
    transport_calls (trace (RoundTrip env s rt req w).2) =
      count_from 1 (Z.to_nat (maxRetries rt)) /\
    multierr_Errors (Some err) =
      tagged_reasons (registry s rt) (attempts (trace (RoundTrip env s rt req w).2))
      ++ [exhausted_reason] /\
    length (multierr_Errors (Some err)) = S (Z.to_nat (maxRetries rt)).
Proof.
  intros HN Hdef Hctx Hrace.
  assert (is_int64 (maxRetries rt)) as Hint by (unfold is_int64, MinInt64; lia).
  destruct (RoundTrip_returns env s rt req w Hint) as [_ Hret].
  destruct (Hret Hdef) as (response & err & Hexit).
  assert (Forall (fun ar => retried (registry s rt) ar.2 = true)
            (attempts (trace (RoundTrip env s rt req w).2))) as Hall.
  { unfold RoundTrip.
    apply (RoundTrip_loop_attempts_from_race env s rt req
             (fun r => retried (registry s rt) r = true) Hrace).
    constructor. }
  destruct (RoundTrip_post env s rt req w Hint) as (atts & Hatts & _ & _ & Hres).
  rewrite Hexit in Hres. destruct Hres as [_ Hres]. rewrite Hatts in Hall.
  destruct Hres as [[(_ & atts0 & a & -> & _ & Hnot)
                    |(-> & _ & terminal & Hterminal & Herrs)]
                   |(_ & _ & _ & Hout)]; [| |contradiction].
  { apply Forall_app in Hall as [_ Hlast].
    apply Forall_cons in Hlast as [Hlast _]. cbn [snd] in Hlast. congruence. }
  simpl in Herrs.
  destruct err as [e|].
  2:{ simpl in Herrs. destruct (tagged_reasons (registry s rt) atts); discriminate. }
  destruct (RoundTrip_returned_error env s rt req w None e HN Hexit)
    as [_ [[_ Hcancelled]|(Hlast & _ & Hcalls)]].
  { rewrite Hctx in Hcancelled. discriminate. }
  exists e. split; [exact Hexit|]. split; [exact Hcalls|].
  rewrite Herrs, last_snoc in Hlast. injection Hlast as ->.
  rewrite Hatts. split; [exact Herrs|].
  rewrite Herrs, length_app, tagged_reasons_length by exact Hall.
  rewrite transport_calls_attempts, Hatts in Hcalls.
  apply (f_equal (@length Z)) in Hcalls. rewrite length_map in Hcalls.
  rewrite Hcalls. clear. generalize (Z.to_nat (maxRetries rt)) as n. generalize 1.
  intros from n. revert from. induction n as [|n IH]; intros from; simpl; [reflexivity|].
  specialize (IH (from + 1)). simpl in IH. lia.
Qed.

(** X6 on a call with budget 2 against a transport that never answers in
    time. *)
Lemma RoundTrip_all_retried_witness :
  exists err,
    (RoundTrip (steady TimerFired) demo_store (demo_transport 2)
       (GET "http://example.test/") 0%nat).1 = Returned None (Some err) /\
    transport_calls
      (trace (RoundTrip (steady TimerFired) demo_store (demo_transport 2)
                (GET "http://example.test/") 0%nat).2) = [1; 2] /\
    length (multierr_Errors (Some err)) = 3%nat.
Proof.
  destruct (RoundTrip_all_retried (steady TimerFired) demo_store (demo_transport 2)
              (GET "http://example.test/") 0%nat)
    as (err & Hexit & Hcalls & _ & Hlen).
  - unfold MaxInt64. simpl. lia.
  - apply demo_transport_backoff_defined.
  - intros w'. reflexivity.
  - intros w'. reflexivity.
  - exists err. split; [exact Hexit|]. split; [exact Hcalls|exact Hlen].
Defined.

(** ** The budget *)

(** X7.  The budget bounds the invocations, however the call ends (it
    returns, or it panics in the backoff policy): for a [maxRetries]
    within the range of an [int], the underlying transport is invoked at
    most [max 0 maxRetries] times, and the attempt numbers it is invoked
    with are 1, 2, 3, ... without a gap or a repetition; a call that
    panics does so because the backoff policy is nil or fails for an
    attempt number within the budget. *)
Theorem RoundTrip_attempt_numbers {W} (env : Environment W) (s : Store)
    (rt : retriableTransport) (req : http_Request) (w : W) :
  is_int64 (maxRetries rt) ->
  transport_calls (trace (RoundTrip env s rt req w).2) =
    count_from 1 (length (transport_calls (trace (RoundTrip env s rt req w).2))) /\
  Z.of_nat (length (transport_calls (trace (RoundTrip env s rt req w).2))) <=
    Z.max 0 (maxRetries rt) /\
  ((RoundTrip env s rt req w).1 = Panicked ->
   exists a, 1 <= a <= maxRetries rt /\ policy_fails rt a).
Proof.
  intros HN.
  destruct (RoundTrip_post env s rt req w HN) as (atts & Hatts & Hnum & Hlen & Hres).
  rewrite transport_calls_attempts, Hatts, length_map.
  split; [exact Hnum|]. split; [exact Hlen|].
  intros Hexit. rewrite Hexit in Hres. exact Hres.
Qed.

(** X7 on a call with budget 2 against a transport that never answers in
    time. *)
Lemma RoundTrip_attempt_numbers_witness :
  is_int64 (maxRetries (demo_transport 2)) /\
  transport_calls
    (trace (RoundTrip (steady TimerFired) demo_store (demo_transport 2)
              (GET "http://example.test/") 0%nat).2) = [1; 2] /\
  Z.of_nat
    (length
       (transport_calls
          (trace (RoundTrip (steady TimerFired) demo_store (demo_transport 2)
                    (GET "http://example.test/") 0%nat).2))) <= Z.max 0 2.
Proof.
  assert (is_int64 (maxRetries (demo_transport 2))) as HN
    by (unfold is_int64, MinInt64, MaxInt64; simpl; lia).
  split; [exact HN|]. split; [reflexivity|].
  exact (proj1 (proj2 (RoundTrip_attempt_numbers (steady TimerFired) demo_store
                         (demo_transport 2) (GET "http://example.test/") 0%nat HN))).
Defined.

(** X8.  The backoff policy is called with the attempt numbers of the
    attempts that completed before their timer with a verdict to retry,
    and with no others: in a call that returns, the numbers passed to the
    policy are those attempt numbers in attempt order, so they are
    strictly increasing (no number is passed twice) and lie between 1 and
    [maxRetries]; the policy is never called with 0 or with a number
    above the budget. *)
Theorem RoundTrip_backoff_numbers {W} (env : Environment W)
    (s : Store) (rt : retriableTransport) (req : http_Request) (w : W)
    (response : option http_Response) (err : option error) :
  is_int64 (maxRetries rt) ->
  (RoundTrip env s rt req w).1 = Returned response err ->
  backoff_calls (trace (RoundTrip env s rt req w).2) =
    List.map fst
      (List.filter (fun ar => completed_retry (registry s rt) ar.2)
         (attempts (trace (RoundTrip env s rt req w).2))) /\
  StronglySorted Z.lt (backoff_calls (trace (RoundTrip env s rt req w).2)) /\
  Forall (fun a => 1 <= a <= maxRetries rt)
    (backoff_calls (trace (RoundTrip env s rt req w).2)).
Proof. apply RoundTrip_backoff_calls. Qed.

(** X8 on a call with budget 3 against a transport that times out,
    answers 503 and then 200: the policy is called once, with 2. *)
Lemma RoundTrip_backoff_numbers_witness :
  is_int64 (maxRetries (demo_transport 3)) /\
  (RoundTrip scripted demo_store (demo_transport 3) (GET "http://example.test/")
     (script [TimerFired; respond 503; respond 200])).1 =
    Returned (Some {| StatusCode := 200; Body := EmptyString |}) None /\
  backoff_calls
    (trace (RoundTrip scripted demo_store (demo_transport 3)
              (GET "http://example.test/")
              (script [TimerFired; respond 503; respond 200])).2) = [2] /\
  StronglySorted Z.lt
    (backoff_calls
       (trace (RoundTrip scripted demo_store (demo_transport 3)
                 (GET "http://example.test/")
                 (script [TimerFired; respond 503; respond 200])).2)).
Proof.
  assert (is_int64 (maxRetries (demo_transport 3))) as HN
    by (unfold is_int64, MinInt64, MaxInt64; simpl; lia).
  split; [exact HN|]. split; [reflexivity|]. split; [reflexivity|].
  exact (proj1 (proj2 (RoundTrip_backoff_numbers scripted demo_store
                         (demo_transport 3) (GET "http://example.test/")
                         (script [TimerFired; respond 503; respond 200])
                         (Some {| StatusCode := 200; Body := EmptyString |}) None
                         HN eq_refl))).
Defined.

(** X9.  Budgets that send nothing.  With [maxRetries = 0] the call
    invokes the underlying transport not once: it returns a nil response
    and the single reason "cancelled from parent context" when the
    context already reports an error, "max retries reached" otherwise.
    With a negative [maxRetries], or with the largest [int] (whose
    successor wraps around to the smallest), the loop is not entered and
    the call returns a nil response and a nil error.  In all these cases
    the call leaves the world as it found it. *)
Theorem RoundTrip_no_budget {W} (env : Environment W) (s : Store)
    (rt : retriableTransport) (req : http_Request) (w : W) :
  is_int64 (maxRetries rt) ->
  ~ 1 <= maxRetries rt < MaxInt64 ->
  (RoundTrip env s rt req w).2 = {| world := w; trace := [] |} /\
  (RoundTrip env s rt req w).1 =
    Returned None
      (if decide (maxRetries rt = 0)
       then Some (if ctx_Err env req w then cancelled_reason else exhausted_reason)
       else None).
Proof.
  intros [Hlo Hhi] Hout.
  destruct (decide (maxRetries rt = 0)) as [H0|Hne].
  - unfold RoundTrip. simpl RoundTrip_loop.
    rewrite int_add_1_small by (unfold MinInt64, MaxInt64 in *; lia).
    destruct (Z.leb_spec 1 (maxRetries rt + 1)) as [_|Hcontra]; [|lia].
    unfold RoundTrip_body. cbn [world].
    destruct (ctx_Err env req w); [split; reflexivity|].
    destruct (Z.ltb_spec (maxRetries rt) 1) as [_|Hcontra]; [|lia].
    split; reflexivity.
  - destruct (Z_lt_le_dec (maxRetries rt) 0) as [Hneg|Hpos].
    + rewrite RoundTrip_negative_budget by lia. split; reflexivity.
    + assert (maxRetries rt = MaxInt64) as Hmax by lia.
      unfold RoundTrip. simpl RoundTrip_loop.
      destruct (Z.leb_spec 1 (int_add (maxRetries rt) 1)) as [Hcontra|_];
        [|split; reflexivity].
      rewrite Hmax, int_add_1_MaxInt64 in Hcontra. unfold MinInt64 in Hcontra. lia.
Qed.

(** X9 on a client built with [WithMaxRetry 0], whatever the underlying
    transport would answer. *)
Lemma RoundTrip_no_budget_witness :
  is_int64 (maxRetries (demo_transport 0)) /\
  ~ 1 <= maxRetries (demo_transport 0) < MaxInt64 /\
  RoundTrip scripted demo_store (demo_transport 0) (GET "http://example.test/")
    (script [respond 200]) =
    (Returned None (Some exhausted_reason),
     {| world := script [respond 200]; trace := [] |}).
Proof.
  assert (is_int64 (maxRetries (demo_transport 0))) as HN
    by (unfold is_int64, MinInt64, MaxInt64; simpl; lia).
  assert (~ 1 <= maxRetries (demo_transport 0) < MaxInt64) as Hout
    by (simpl; lia).
  split; [exact HN|]. split; [exact Hout|].
  destruct (RoundTrip_no_budget scripted demo_store (demo_transport 0)
              (GET "http://example.test/") (script [respond 200]) HN Hout)
    as [Hstate Hexit].
  apply injective_projections; [exact Hexit|exact Hstate].
Defined.

(** ** Clients and their registries *)

(** Allocating a map does not change what the default map reads as. *)
Lemma map_contents_make_map (s : Store) (x : gmap Z string)
    (tr : gmap loc http_Transport) (m : loc) :
  m ∈ dom (maps s) ->
  map_contents {| maps := <[fresh (dom (maps s)) := x]> (maps s); transports := tr |} m =
  map_contents s m.
Proof.
  intros Hm. unfold map_contents. simpl.
  rewrite lookup_insert_ne; [reflexivity|].
  intros Heq. rewrite <- Heq in Hm. exact (is_fresh _ Hm).
Qed.

(** Package initialisation has created the default map. *)
Lemma initial_store_default : defaultRetryStatusMap ∈ dom (maps initial_store).
Proof. apply elem_of_dom. eexists. reflexivity. Qed.

(** What a constructor call does to the maps of the store: the registry
    of the new transport is a map object that did not exist; it holds the
    default entries and the status text of each other code given; every
    other map object is as before. *)
Lemma newRetriableTransport_maps (settings : option Settings) (codes : list Z)
    (s : Store) (rt : retriableTransport) (st : Settings) (s' : Store) :
  defaultRetryStatusMap ∈ dom (maps s) ->
  newRetriableTransport settings codes s = Some (rt, st, s') ->
  (retryStatusCodes rt ∉ dom (maps s)) /\
  dom (maps s') = {[retryStatusCodes rt]} ∪ dom (maps s) /\
  (forall m, m <> retryStatusCodes rt -> maps s' !! m = maps s !! m) /\
  (forall code,
     registry s' rt !! code =
     match map_contents s defaultRetryStatusMap !! code with
     | Some msg => Some msg
     | None =>
       if bool_decide (code ∈ codes) then Some (http_StatusText code) else None
     end).
Proof.
  intros Hdef. unfold newRetriableTransport. fold (effective settings).
  destruct (transports s !! http_DefaultTransport) as [t0|]; [|discriminate].
  match goal with
  | |- context [extendDefault codes ?x] =>
    pose proof (extendDefault_unfold codes x) as Hunf; cbv zeta in Hunf;
    rewrite Hunf
  end.
  clear Hunf. cbn [maps transports transport_write].
  intros Hbuilt.
  assert (retryStatusCodes rt = fresh (dom (maps s)) /\
          maps s' =
            <[fresh (dom (maps s)) :=
                fold_left
                  (fun m c => match m !! c with
                              | Some _ => m
                              | None => <[c := http_StatusText c]> m
                              end) codes
                  (map_contents
                     {| maps := <[fresh (dom (maps s)) := ∅]> (maps s);
                        transports :=
                          transports
                            (transport_write http_DefaultTransport
                               {| t_MaxIdleConns := MaxIdleConns (effective settings);
                                  t_IdleConnTimeout := IdleConnTimeout (effective settings);
                                  t_TLSHandshakeTimeout :=
                                    TLSHandshakeTimeout (effective settings);
                                  t_ExpectContinueTimeout :=
                                    ExpectContinueTimeout (effective settings);
                                  t_ResponseHeaderTimeout :=
                                    ResponseHeaderTimeout (effective settings);
                                  ForceAttemptHTTP2 := ForceAttemptHTTP2 t0;
                                  TLSClientConfig :=
                                    Some {| MinVersion := VersionTLS12;
                                            InsecureSkipVerify :=
                                              if Insecure (effective settings)
                                              then true else false |} |} s) |}
                     defaultRetryStatusMap)]> (maps s)) as [Hl Hmaps].
  { destruct (BackoffPolicy (effective settings));
      injection Hbuilt as <- _ <-; split; reflexivity. }
  clear Hbuilt. rewrite (map_contents_make_map s _ _ _ Hdef) in Hmaps.
  rewrite Hl. pose proof (is_fresh (dom (maps s))) as Hfresh.
  split; [exact Hfresh|]. split.
  { rewrite Hmaps. apply dom_insert_L. }
  split.
  { intros m Hm. rewrite Hmaps, lookup_insert_ne by congruence. reflexivity. }
  intros code. unfold registry, map_contents.
  rewrite Hl, Hmaps, lookup_insert_eq. simpl. apply fold_add_lookup.
Qed.

(** X10.  Which answers a built client retries.  For a client that
    [NewClient] builds, with any settings and any extra status codes, in
    a store where the default map exists: an attempt that failed with an
    error is retried with that error as the reason; an errorless attempt
    is retried exactly when its status code is a key of the default map
    or one of the extra codes; the reason is the text the default map
    holds for the code, also when the code is repeated among the extra
    codes, and otherwise [http.StatusText] of the code. *)
Theorem NewClient_retry_decision (settings : option Settings) (codes : list Z)
    (s : Store) (c : http_Client) (st : Settings) (s' : Store) :
  defaultRetryStatusMap ∈ dom (maps s) ->
  NewClient settings codes s = Some (c, st, s') ->
  forall statusCode err,
    shouldRetry s' (Transport c) statusCode err =
    match err with
    | Some e => (true, Some e)
    | None =>
      match map_contents s defaultRetryStatusMap !! statusCode with
      | Some msg => (true, Some (errors_New msg))
      | None =>
        if bool_decide (statusCode ∈ codes)
        then (true, Some (errors_New (http_StatusText statusCode)))
        else (false, None)
      end
    end.
Proof.
  intros Hdef Hnew statusCode err. unfold NewClient in Hnew.
  destruct (newRetriableTransport settings codes s) as [[[rt st0] s0]|] eqn:Hbuilt;
    [|discriminate].
  injection Hnew as <- <- <-. cbn [Transport].
  destruct (newRetriableTransport_maps settings codes s rt st0 s0 Hdef Hbuilt)
    as (_ & _ & _ & Hreg).
  rewrite shouldRetry_unfold. unfold decide_retry.
  destruct err as [e|]; [reflexivity|].
  rewrite Hreg.
  destruct (map_contents s defaultRetryStatusMap !! statusCode); [reflexivity|].
  destruct (bool_decide (statusCode ∈ codes)); reflexivity.
Qed.

(** X10 on a client built in the initial store with the extra codes 404
    and 503: 404 is retried with its status text, 503 with the default
    reason, 200 is not retried. *)
Lemma NewClient_retry_decision_witness :
  exists c st s',
    NewClient None [StatusNotFound; StatusServiceUnavailable] initial_store =
      Some (c, st, s') /\
    shouldRetry s' (Transport c) 404 None = (true, Some (errors_New "Not Found")) /\
    shouldRetry s' (Transport c) 503 None =
      (true, Some (errors_New "서비스 사용 불가상태로 재시도")) /\
    shouldRetry s' (Transport c) 200 None = (false, None).
Proof.
  eexists _, _, _. split; [reflexivity|].
  rewrite !(NewClient_retry_decision None [StatusNotFound; StatusServiceUnavailable]
              initial_store _ _ _ initial_store_default eq_refl).
  repeat split; reflexivity.
Defined.

(** X11.  Every client has a registry of its own.  Of two clients built
    one after the other, in a store where the default map exists, the
    registries are two different map objects, neither of them the default
    map; building the second client changes neither the registry of the
    first (its retry decisions stay what they were, whatever extra codes
    the second client is given) nor the default map. *)
Theorem NewClient_own_registry (settings1 settings2 : option Settings)
    (codes1 codes2 : list Z) (s : Store)
    (c1 c2 : http_Client) (st1 st2 : Settings) (s1 s2 : Store) :
  defaultRetryStatusMap ∈ dom (maps s) ->
  NewClient settings1 codes1 s = Some (c1, st1, s1) ->
  NewClient settings2 codes2 s1 = Some (c2, st2, s2) ->
  retryStatusCodes (Transport c1) <> retryStatusCodes (Transport c2) /\
  retryStatusCodes (Transport c1) <> defaultRetryStatusMap /\
  retryStatusCodes (Transport c2) <> defaultRetryStatusMap /\
  registry s2 (Transport c1) = registry s1 (Transport c1) /\
  (forall statusCode err,
     shouldRetry s2 (Transport c1) statusCode err =
     shouldRetry s1 (Transport c1) statusCode err) /\
  map_contents s2 defaultRetryStatusMap = map_contents s defaultRetryStatusMap.
Proof.
  intros Hdef Hnew1 Hnew2. unfold NewClient in Hnew1, Hnew2.
  destruct (newRetriableTransport settings1 codes1 s) as [[[rt1 st1'] s1']|] eqn:Hbuilt1;
    [|discriminate].
  injection Hnew1 as <- <- <-.
  destruct (newRetriableTransport settings2 codes2 s1') as [[[rt2 st2'] s2']|] eqn:Hbuilt2;
    [|discriminate].
  injection Hnew2 as <- <- <-. cbn [Transport].
  destruct (newRetriableTransport_maps _ _ _ _ _ _ Hdef Hbuilt1)
    as (Hfresh1 & Hdom1 & Hkeep1 & _).
  assert (defaultRetryStatusMap ∈ dom (maps s1')) as Hdef1
    by (rewrite Hdom1; apply elem_of_union_r; exact Hdef).
  destruct (newRetriableTransport_maps _ _ _ _ _ _ Hdef1 Hbuilt2)
    as (Hfresh2 & _ & Hkeep2 & _).
  assert (retryStatusCodes rt1 <> retryStatusCodes rt2) as Hne.
  { intros Heq. apply Hfresh2. rewrite <- Heq, Hdom1.
    apply elem_of_union_l, elem_of_singleton. reflexivity. }
  assert (retryStatusCodes rt1 <> defaultRetryStatusMap) as Hne1
    by (intros Heq; rewrite Heq in Hfresh1; contradiction).
  assert (retryStatusCodes rt2 <> defaultRetryStatusMap) as Hne2
    by (intros Heq; rewrite Heq in Hfresh2; contradiction).
  assert (registry s2' rt1 = registry s1' rt1) as Hreg.
  { unfold registry, map_contents. rewrite Hkeep2 by exact Hne. reflexivity. }
  repeat split; try assumption.
  - intros statusCode err. rewrite !shouldRetry_unfold, Hreg. reflexivity.
  - unfold map_contents.
    rewrite Hkeep2, Hkeep1 by (apply not_eq_sym; assumption). reflexivity.
Qed.

(** X11 in the initial store: a first client without extra codes does
    not retry 404, also after a second client has been built that does. *)
Lemma NewClient_own_registry_witness :
  exists c1 st1 s1 c2 st2 s2,
    NewClient None [] initial_store = Some (c1, st1, s1) /\
    NewClient None [StatusNotFound] s1 = Some (c2, st2, s2) /\
    retryStatusCodes (Transport c1) <> retryStatusCodes (Transport c2) /\
    shouldRetry s2 (Transport c1) 404 None = (false, None) /\
    shouldRetry s2 (Transport c2) 404 None = (true, Some (errors_New "Not Found")).
Proof.
  eexists _, _, _, _, _, _. split; [reflexivity|]. split; [reflexivity|].
  destruct (NewClient_own_registry None None [] [StatusNotFound] initial_store
              _ _ _ _ _ _ initial_store_default eq_refl eq_refl)
    as (Hne & _ & _ & _ & Hsame & _).
  split; [exact Hne|]. rewrite Hsame. split; reflexivity.
Defined.

(** X12.  A built client never has a nil backoff policy.  The transport
    [NewClient] builds calls the policy of the settings, or
    [defaultBackoffPolicy] when the settings hold none; the settings
    object the constructor works with (the caller's own, when one is
    passed) is then left with the default policy written into it and is
    otherwise unchanged.  A client built from settings
    without a policy, with a [MaxRetry] in the range of an [int], never
    panics in [RoundTrip]: every call returns, whatever the context, the
    underlying transport and the clock do. *)
Theorem NewClient_backoff_policy (settings : option Settings) (codes : list Z)
    (s : Store) (c : http_Client) (st : Settings) (s' : Store) :
  NewClient settings codes s = Some (c, st, s') ->
  backoffPolicy (Transport c) =
    Some (default defaultBackoffPolicy (BackoffPolicy (effective settings))) /\
  st = WithBackoffPolicy (backoffPolicy (Transport c)) (effective settings) /\
  (BackoffPolicy (effective settings) = None ->
   is_int64 (MaxRetry (effective settings)) ->
   forall (W : Type) (env : Environment W) (req : http_Request) (w : W),
   exists response err,
     (RoundTrip env s' (Transport c) req w).1 = Returned response err).
Proof.
  intros Hnew. unfold NewClient in Hnew.
  destruct (newRetriableTransport settings codes s) as [[[rt st0] s0]|] eqn:Hbuilt;
    [|discriminate].
  injection Hnew as <- <- <-. cbn [Transport].
  assert (is_Some (transports s !! http_DefaultTransport)) as [t0 Ht0].
  { unfold newRetriableTransport in Hbuilt.
    destruct (transports s !! http_DefaultTransport); [eauto|discriminate]. }
  destruct (newRetriableTransport_Some settings codes s t0 Ht0)
    as (rt' & st' & s'' & Hbuilt' & _ & Hmax & _ & _ & Hpolicy & Hst & _).
  rewrite Hbuilt in Hbuilt'. injection Hbuilt' as <- <- <-.
  split; [exact Hpolicy|]. split.
  { rewrite Hst, Hpolicy.
    destruct (BackoffPolicy (effective settings)) as [policy|] eqn:Hp; [|reflexivity].
    destruct (effective settings). simpl in Hp. subst. reflexivity. }
  intros Hnil HN W env req w. rewrite Hnil in Hpolicy. simpl in Hpolicy.
  rewrite <- Hmax in HN.
  apply (RoundTrip_returns env s0 rt req w HN).
  intros attempt Ha.
  destruct (defaultBackoffPolicy_defined attempt) as [d Hd]; [lia|].
  exists defaultBackoffPolicy, d. split; [exact Hpolicy|exact Hd].
Qed.

(** X12 on settings from which the policy has been removed. *)
Lemma NewClient_backoff_policy_witness :
  exists c st s',
    NewClient (Some (NewHTTPSettings [WithBackoffPolicy None; WithMaxRetry 5]))
      [] initial_store = Some (c, st, s') /\
    backoffPolicy (Transport c) = Some defaultBackoffPolicy /\
    BackoffPolicy st = Some defaultBackoffPolicy.
Proof.
  eexists _, _, _. split; [reflexivity|].
  destruct (NewClient_backoff_policy
              (Some (NewHTTPSettings [WithBackoffPolicy None; WithMaxRetry 5]))
              [] initial_store _ _ _ eq_refl) as (Hpolicy & Hst & _).
  split; [exact Hpolicy|]. reflexivity.
Defined.

(** X13.  What building a client does to the store.  [NewClient] panics
    exactly when [http.DefaultTransport] holds no [*http.Transport].
    Otherwise, in a store where the default map exists, it creates one
    map object, the registry of the new client, and no transport object;
    it leaves every other map object and every transport object other
    than the one behind [http.DefaultTransport] as they were. *)
Theorem NewClient_frame (settings : option Settings) (codes : list Z) (s : Store) :
  (NewClient settings codes s = None <->
   transports s !! http_DefaultTransport = None) /\
  (forall c st s',
     defaultRetryStatusMap ∈ dom (maps s) ->
     NewClient settings codes s = Some (c, st, s') ->
     dom (maps s') = {[retryStatusCodes (Transport c)]} ∪ dom (maps s) /\
     (retryStatusCodes (Transport c) ∉ dom (maps s)) /\
     (forall m, m ∈ dom (maps s) -> maps s' !! m = maps s !! m) /\
     dom (transports s') = dom (transports s) /\
     (forall p, p <> http_DefaultTransport ->
        transports s' !! p = transports s !! p)).
Proof.
  split.
  - unfold NewClient. split.
    + intros Hnone.
      destruct (transports s !! http_DefaultTransport) as [t0|] eqn:Ht0; [|reflexivity].
      destruct (newRetriableTransport_Some settings codes s t0 Ht0)
        as (rt & st & s' & Hbuilt & _).
      rewrite Hbuilt in Hnone. discriminate.
    + intros Hnone. unfold newRetriableTransport. rewrite Hnone. reflexivity.
  - intros c st s' Hdef Hnew. unfold NewClient in Hnew.
    destruct (newRetriableTransport settings codes s) as [[[rt st0] s0]|] eqn:Hbuilt;
      [|discriminate].
    injection Hnew as <- <- <-. cbn [Transport].
    destruct (newRetriableTransport_maps _ _ _ _ _ _ Hdef Hbuilt)
      as (Hfresh & Hdom & Hkeep & _).
    assert (is_Some (transports s !! http_DefaultTransport)) as [t0 Ht0].
    { unfold newRetriableTransport in Hbuilt.
      destruct (transports s !! http_DefaultTransport); [eauto|discriminate]. }
    destruct (newRetriableTransport_Some settings codes s t0 Ht0)
      as (rt' & st' & s'' & Hbuilt' & _ & _ & _ & _ & _ & _ & Htr).
    rewrite Hbuilt in Hbuilt'. injection Hbuilt' as <- <- <-.
    split; [exact Hdom|]. split; [exact Hfresh|]. split.
    { intros m Hm. apply Hkeep. intros ->. contradiction. }
    rewrite Htr. split.
    + apply dom_insert_lookup_L. eauto.
    + intros p Hp. apply lookup_insert_ne. congruence.
Qed.

(** ** Settings and options *)

Lemma last_or_cons {A} (dflt : A) (pick : OptionCall -> option A)
    (c : OptionCall) (calls : list OptionCall) :
  last_or dflt pick (c :: calls) = last_or (default dflt (pick c)) pick calls.
Proof.
  unfold last_or.
  assert (omap pick (c :: calls) =
          match pick c with
          | Some v => v :: omap pick calls
          | None => omap pick calls
          end) as -> by reflexivity.
  destruct (pick c) as [v|]; [|reflexivity].
  rewrite last_cons. destruct (last (omap pick calls)); reflexivity.
Qed.

(** Applying the options of a list of calls, one after the other. *)
Lemma fold_options_last_calls (calls : list OptionCall) (s : Settings) :
  fold_left (fun s (opt : HTTPOption) => opt s) (List.map option_of calls) s =
  last_calls s calls.
Proof.
  revert s. induction calls as [|c calls IH]; intros s.
  { destruct s. reflexivity. }
  simpl fold_left. rewrite IH. unfold last_calls.
  rewrite !last_or_cons. destruct c; reflexivity.
Qed.

(** X14.  Options compose field by field, and the last one wins.  For
    every sequence of calls of the ten [With...] options, each field of
    the settings [NewHTTPSettings] returns has the value given by the
    last call of the option for that field, and the default (3 retries,
    debug off, insecure on, 15 idle connections, 90 s, 10 s, 1 s, 10 s
    and 10 s for the five timeouts, the default backoff policy) when the
    option for that field was not called; options for different fields
    do not interfere, whatever their order. *)
Theorem NewHTTPSettings_last_option_wins (calls : list OptionCall) :
  NewHTTPSettings (List.map option_of calls) =
  {| MaxRetry := last_or 3 given_MaxRetry calls;
     DebugMode := last_or false given_DebugMode calls;
     Insecure := last_or true given_Insecure calls;
     MaxIdleConns := last_or 15 given_MaxIdleConns calls;
     IdleConnTimeout := last_or (90 * Second) given_IdleConnTimeout calls;
     TLSHandshakeTimeout := last_or (10 * Second) given_TLSHandshakeTimeout calls;
     ExpectContinueTimeout := last_or (1 * Second) given_ExpectContinueTimeout calls;
     ResponseHeaderTimeout :=
       last_or (10 * Second) given_ResponseHeaderTimeout calls;
     RequestTimeout := last_or (10 * Second) given_RequestTimeout calls;
     BackoffPolicy :=
       last_or (Some defaultBackoffPolicy) given_BackoffPolicy calls |}.
Proof. unfold NewHTTPSettings. cbv zeta. apply fold_options_last_calls. Qed.

(** ** The default backoff policy beyond its exponential range *)

Lemma wrap64_range (z : Z) : is_int64 (wrap64 z).
Proof.
  unfold is_int64, wrap64, MinInt64, MaxInt64.
  pose proof (Z.mod_pos_bound (z + 2 ^ 63) (2 ^ 64) ltac:(lia)). lia.
Qed.

(** X15.  [defaultBackoffPolicy] outside the range where it doubles.  A
    negative attempt number makes the shift panic; every attempt number
    from 0 on gives a delay.  From attempt 34 on the delay is no longer
    [2 ^ attempt] seconds, because the product no longer fits an [int64]:
    at 34 it is negative, and from attempt 55 on it is zero, so that
    [time.Sleep] returns at once. *)
Theorem defaultBackoffPolicy_beyond_range :
  (forall attempt, attempt < 0 -> defaultBackoffPolicy attempt = None) /\
  (forall attempt, 0 <= attempt -> exists d,
     defaultBackoffPolicy attempt = Some d /\ is_int64 d) /\
  (forall attempt, 34 <= attempt ->
     defaultBackoffPolicy attempt <> Some (2 ^ attempt * Second)) /\
  (exists d, defaultBackoffPolicy 34 = Some d /\ d < 0) /\
  (forall attempt, 55 <= attempt -> defaultBackoffPolicy attempt = Some 0).
Proof.
  assert (forall attempt, 0 <= attempt -> exists d,
            defaultBackoffPolicy attempt = Some d /\ is_int64 d) as Hdefined.
  { intros attempt Ha. unfold defaultBackoffPolicy, int_shl.
    destruct (Z.ltb_spec attempt 0); [lia|].
    destruct (64 <=? attempt); eexists; (split; [reflexivity|]);
      apply wrap64_range. }
  split; [|split; [exact Hdefined|split; [|split]]].
  - intros attempt Ha. unfold defaultBackoffPolicy, int_shl.
    destruct (Z.ltb_spec attempt 0); [reflexivity|lia].
  - intros attempt Ha Heq.
    destruct (Hdefined attempt ltac:(lia)) as (d & Hd & Hrange).
    rewrite Hd in Heq. injection Heq as ->.
    assert (2 ^ 34 <= 2 ^ attempt) as Hpow by (apply Z.pow_le_mono_r; lia).
    change (2 ^ 34) with 17179869184 in Hpow.
    unfold is_int64, MinInt64, MaxInt64, Second in Hrange. lia.
  - eexists. split; [reflexivity|]. reflexivity.
  - intros attempt Ha. unfold defaultBackoffPolicy, int_shl.
    destruct (Z.ltb_spec attempt 0); [lia|].
    destruct (Z.leb_spec 64 attempt); [reflexivity|].
    assert (attempt = 55 \/ attempt = 56 \/ attempt = 57 \/ attempt = 58 \/
            attempt = 59 \/ attempt = 60 \/ attempt = 61 \/ attempt = 62 \/
            attempt = 63) as Hcases by lia.
    repeat (destruct Hcases as [->|Hcases]; [reflexivity|]).
    subst. reflexivity.
Qed.

(** ** The text of a returned error *)

Lemma string_app_assoc (a b c : string) : (a +:+ b) +:+ c = a +:+ (b +:+ c).
Proof.
  induction a as [|x a IH]; [reflexivity|].
  change (String x ((a +:+ b) +:+ c) = String x (a +:+ (b +:+ c))).
  rewrite IH. reflexivity.
Qed.

Lemma has_prefix_refl (t : string) : has_prefix t t = true.
Proof.
  induction t as [|x t IH]; simpl; [reflexivity|].
  rewrite Ascii.eqb_refl, IH. reflexivity.
Qed.

(** A string contains each of its suffixes. *)
Lemma Contains_suffix (p t : string) : Contains (p +:+ t) t = true.
Proof.
  induction p as [|x p IH].
  - simpl. destruct t; simpl; [reflexivity|].
    rewrite Ascii.eqb_refl, has_prefix_refl. reflexivity.
  - change (String x p +:+ t) with (String x (p +:+ t)).
    cbn [Contains]. rewrite IH. apply orb_true_r.
Qed.

(** The joined text of a list ends with the text of its last element. *)
Lemma join_snoc (sep : string) (l : list string) (x : string) :
  exists prefix, join sep (l ++ [x]) = prefix +:+ x.
Proof.
  induction l as [|a l [prefix IH]].
  { exists EmptyString. reflexivity. }
  exists (a +:+ sep +:+ prefix).
  change ((a :: l) ++ [x]) with (a :: (l ++ [x])).
  destruct (l ++ [x]) as [|b rest] eqn:Hl.
  { destruct l; discriminate. }
  change (join sep (a :: b :: rest)) with (a +:+ sep +:+ join sep (b :: rest)).
  rewrite IH, !string_app_assoc. reflexivity.
Qed.

(** The text of an error whose last reason is built by [errors.New] ends
    with the message of that reason. *)
Lemma Error_last_reason (e : error) (msg : string) :
  last (multierr_Errors (Some e)) = Some (errors_New msg) ->
  exists prefix, Error e = prefix +:+ msg.
Proof.
  intros Hlast. apply last_Some in Hlast as [l Hl].
  destruct e as [m|m|cause m|errs]; simpl in Hl.
  - destruct l as [|? [|? ?]]; try discriminate. injection Hl as ->.
    exists EmptyString. reflexivity.
  - destruct l as [|? [|? ?]]; discriminate.
  - destruct l as [|? [|? ?]]; discriminate.
  - subst errs. cbn [Error]. rewrite map_app. cbn [List.map Error].
    apply join_snoc.
Qed.

(** X16.  The text of the error a call returns tells why it gave up.
    For a budget [0 <= maxRetries] whose successor is representable, the
    [Error()] text of a returned error ends with, and so contains,
    "cancelled from parent context" when the request context reports an
    error in the world the call leaves, and "max retries reached" when it
    reports none. *)
Theorem RoundTrip_error_text {W} (env : Environment W) (s : Store)
    (rt : retriableTransport) (req : http_Request) (w : W)
    (response : option http_Response) (e : error) :
  0 <= maxRetries rt < MaxInt64 ->
  (RoundTrip env s rt req w).1 = Returned response (Some e) ->
  (exists prefix,
     Error e =
     prefix +:+
     (if ctx_Err env req (world (RoundTrip env s rt req w).2)
      then "cancelled from parent context" else "max retries reached")) /\
  Contains (Error e)
    (if ctx_Err env req (world (RoundTrip env s rt req w).2)
     then "cancelled from parent context" else "max retries reached") = true.
Proof.
  intros HN Hexit.
  assert (exists prefix,
            Error e =
            prefix +:+
            (if ctx_Err env req (world (RoundTrip env s rt req w).2)
             then "cancelled from parent context" else "max retries reached"))
    as [prefix Htext].
  { destruct (RoundTrip_returned_error env s rt req w response e HN Hexit)
      as [_ [[Hlast ->]|(Hlast & -> & _)]];
      exact (Error_last_reason e _ Hlast). }
  split; [exists prefix; exact Htext|].
  rewrite Htext. apply Contains_suffix.
Qed.

(** X16 on a call with budget 2 against a transport that always answers
    503. *)
Lemma RoundTrip_error_text_witness :
  exists e,
    (RoundTrip scripted demo_store (demo_transport 2) (GET "http://example.test/")
       (script [respond 503; respond 503])).1 = Returned None (Some e) /\
    Error e =
      "attempt(1): 서비스 사용 불가상태로 재시도; attempt(2): 서비스 사용 불가상태로 재시도; max retries reached" /\
    Contains (Error e) "max retries reached" = true.
Proof.
  eexists. split; [reflexivity|]. split; [reflexivity|].
  exact (proj2 (RoundTrip_error_text scripted demo_store (demo_transport 2)
                  (GET "http://example.test/") (script [respond 503; respond 503])
                  None _ ltac:(unfold MaxInt64; simpl; lia) eq_refl)).
Defined.

(** ** The extra status codes as a set *)

(** X17.  Only the set of extra status codes matters.  Two lists of
    additional codes with the same elements, in whatever order and with
    whatever repetitions, make [extendDefault] build the same map at the
    same fresh reference and leave the same store. *)
Theorem extendDefault_set (additional1 additional2 : list Z) (s : Store) :
  (forall code, code ∈ additional1 <-> code ∈ additional2) ->
  extendDefault additional1 s = extendDefault additional2 s.
Proof.
  intros Hsame.
  rewrite (extendDefault_unfold additional1 s), (extendDefault_unfold additional2 s).
  cbv zeta. f_equal. f_equal. f_equal.
  apply map_eq. intros code. rewrite !fold_add_lookup.
  rewrite (bool_decide_ext _ _ (Hsame code)). reflexivity.
Qed.

(** X17 on a list with a repetition and a reordering of it. *)
Lemma extendDefault_set_witness :
  extendDefault [StatusNotFound; 429; StatusNotFound] initial_store =
  extendDefault [429; StatusNotFound] initial_store.
Proof.
  apply extendDefault_set. intros code.
  rewrite !elem_of_cons, !elem_of_nil. tauto.
Defined.
